(** * A Ricart-Agrawala style mutual-exclusion node (peer/peer.go)

    Shallow embedding of the [Node] type of package [peer] and of its
    operations: the Lamport clock, the request ordering, the two inbound
    RPC handlers, the acquisition routine and the release loop.

    Conventions.
    - [uint64] values are integers in [Z]; the increment wraps modulo
      [2^64] as Go's unsigned arithmetic does.
    - A pointer that may be [nil] is an [option].
    - [Peers] is a finite map from peer identity to a client handle; a
      missing key yields the nil interface, and calling a method on it
      panics.
    - [DeferredResponses] is a [container/list] of strings used as a FIFO:
      [PushBack] appends, the release loop removes from the front.
    - [Release] is a buffered channel of capacity one, modelled by the
      list of values it holds.
    - Every operation is a computation over the node that also records the
      outbound RPCs and the entry to and exit from the critical section
      in a trace, and that may panic or block. *)

From Stdlib Require Import ZArith String Ascii List Bool Lia.
From stdpp Require Import base option list gmap strings sorting.

Local Open Scope Z_scope.

(** ** Wire messages (stc/mutex.proto) *)

Record AccessRequest := mkAccessRequest {
  NodeId : string;
  LamportTimestamp : Z
}.

Record AccessResponse := mkAccessResponse {
  Granted : bool;
  RespTimestamp : Z
}.

Record ReleaseRequest := mkReleaseRequest {
  RelNodeId : string;
  RelTimestamp : Z
}.

Record ReleaseResponse := mkReleaseResponse {
  Acknowledged : bool;
  AckTimestamp : Z
}.

(** The client side of the service, [pb.MutexServiceClient]: each call
    returns a response or a transport error ([None]). *)
Record MutexServiceClient := mkClient {
  rpcRequestAccess : AccessRequest -> option AccessResponse;
  rpcReleaseAccess : ReleaseRequest -> option ReleaseResponse
}.

(** ** Unsigned 64-bit arithmetic *)

Definition u64_modulus : Z := 2 ^ 64.
Definition u64_max : Z := u64_modulus - 1.
Definition is_u64 (z : Z) : Prop := 0 <= z < u64_modulus.

(** [x++] on a [uint64]. *)
Definition u64_incr (z : Z) : Z := (z + 1) mod u64_modulus.

(** ** The node *)

Record Node := mkNode {
  ID : string;
  Address : string;
  Peers : gmap string MutexServiceClient;
  LamportClock : Z;
  WantCS : bool;
  InCS : bool;
  DeferredResponses : list string;
  ResponseCount : Z;
  CurrentRequest : option AccessRequest;
  Release : list bool
}.

Definition set_LamportClock (c : Z) (n : Node) : Node :=
  mkNode (ID n) (Address n) (Peers n) c (WantCS n) (InCS n)
         (DeferredResponses n) (ResponseCount n) (CurrentRequest n) (Release n).

Definition set_WantCS (b : bool) (n : Node) : Node :=
  mkNode (ID n) (Address n) (Peers n) (LamportClock n) b (InCS n)
         (DeferredResponses n) (ResponseCount n) (CurrentRequest n) (Release n).

Definition set_InCS (b : bool) (n : Node) : Node :=
  mkNode (ID n) (Address n) (Peers n) (LamportClock n) (WantCS n) b
         (DeferredResponses n) (ResponseCount n) (CurrentRequest n) (Release n).

Definition set_DeferredResponses (d : list string) (n : Node) : Node :=
  mkNode (ID n) (Address n) (Peers n) (LamportClock n) (WantCS n) (InCS n)
         d (ResponseCount n) (CurrentRequest n) (Release n).

Definition set_ResponseCount (k : Z) (n : Node) : Node :=
  mkNode (ID n) (Address n) (Peers n) (LamportClock n) (WantCS n) (InCS n)
         (DeferredResponses n) k (CurrentRequest n) (Release n).

Definition set_CurrentRequest (r : option AccessRequest) (n : Node) : Node :=
  mkNode (ID n) (Address n) (Peers n) (LamportClock n) (WantCS n) (InCS n)
         (DeferredResponses n) (ResponseCount n) r (Release n).

Definition set_Release (ch : list bool) (n : Node) : Node :=
  mkNode (ID n) (Address n) (Peers n) (LamportClock n) (WantCS n) (InCS n)
         (DeferredResponses n) (ResponseCount n) (CurrentRequest n) ch.

Definition set_Peers (p : gmap string MutexServiceClient) (n : Node) : Node :=
  mkNode (ID n) (Address n) p (LamportClock n) (WantCS n) (InCS n)
         (DeferredResponses n) (ResponseCount n) (CurrentRequest n) (Release n).

(** [NewNode]: no peers, clock zero, both flags false, an empty deferred
    list, no current request and an empty [Release] channel. *)
Definition NewNode (id address : string) : Node :=
  mkNode id address ∅ 0 false false [] 0 None [].

(** [ConnectToPeer], on a successful dial. *)
Definition ConnectToPeer (peerID : string) (c : MutexServiceClient) (n : Node) : Node :=
  set_Peers (<[peerID := c]> (Peers n)) n.

(** The three protocol states, read off the two flags as the comments on
    the struct fields say: [InCS] is HELD, [WantCS] alone is WANTED,
    neither is RELEASED. *)
Inductive State := RELEASED | WANTED | HELD.

Definition state (n : Node) : State :=
  if InCS n then HELD else if WantCS n then WANTED else RELEASED.

(** ** Traces and outcomes *)

Inductive Event :=
| EvSendRequest (peer : string) (req : option AccessRequest)
| EvSendRelease (peer : string) (req : ReleaseRequest)
| EvEnterCS
| EvLeaveCS (releaseTimestamp : Z).

(** What running an operation yields: a value with the node and the trace
    it left, a panic, or a goroutine blocked for ever on a channel. *)
Inductive Outcome (A : Type) :=
| Done (a : A) (n : Node) (tr : list Event)
| Panicked (n : Node) (tr : list Event)
| Blocked (n : Node) (tr : list Event).

Arguments Done {A} a n tr.
Arguments Panicked {A} n tr.
Arguments Blocked {A} n tr.

Definition Op (A : Type) : Type := Node -> Outcome A.

Definition ret {A} (a : A) : Op A := fun n => Done a n [].

Definition bind {A B} (m : Op A) (k : A -> Op B) : Op B :=
  fun n =>
    match m n with
    | Done a n1 tr1 =>
        match k a n1 with
        | Done b n2 tr2 => Done b n2 (tr1 ++ tr2)
        | Panicked n2 tr2 => Panicked n2 (tr1 ++ tr2)
        | Blocked n2 tr2 => Blocked n2 (tr1 ++ tr2)
        end
    | Panicked n1 tr1 => Panicked n1 tr1
    | Blocked n1 tr1 => Blocked n1 tr1
    end.

#[global] Instance Op_ret : MRet Op := @ret.
#[global] Instance Op_bind : MBind Op := fun A B k m => bind m k.

Definition get {A} (f : Node -> A) : Op A := fun n => Done (f n) n [].
Definition modify (f : Node -> Node) : Op unit := fun n => Done tt (f n) [].
Definition emit (e : Event) : Op unit := fun n => Done tt n [e].
Definition panic {A} : Op A := fun n => Panicked n [].
Definition block {A} : Op A := fun n => Blocked n [].

(** ** Util functions *)

(** [UpdateLamportClock]: raise the clock to the message timestamp when
    that is larger, increment, return the clock. *)
Definition UpdateLamportClock (msgTimestamp : Z) : Op Z :=
  c ← get LamportClock;
  (if c <? msgTimestamp then modify (set_LamportClock msgTimestamp) else mret tt);;
  c1 ← get LamportClock;
  modify (set_LamportClock (u64_incr c1));;
  get LamportClock.

(** [GetLamportClock]: increment, return the clock. *)
Definition GetLamportClock : Op Z :=
  c ← get LamportClock;
  modify (set_LamportClock (u64_incr c));;
  get LamportClock.

(** [isHigherPriority]: false when either pointer is nil; otherwise the
    lower timestamp wins and equal timestamps are decided by [NodeId < NodeId]
    on strings, which Go compares byte by byte. *)
Definition isHigherPriority (req1 req2 : option AccessRequest) : bool :=
  match req1, req2 with
  | Some r1, Some r2 =>
      if LamportTimestamp r1 =? LamportTimestamp r2
      then String.ltb (NodeId r1) (NodeId r2)
      else LamportTimestamp r1 <? LamportTimestamp r2
  | _, _ => false
  end.

(** [SendReleaseMSG]: one [ReleaseAccess] call on the client; the response
    is dropped and an error is only logged.  A nil client panics. *)
Definition SendReleaseMSG (peerID : string) (client : option MutexServiceClient)
    (releaseTimestamp : Z) : Op unit :=
  id ← get ID;
  match client with
  | None => panic
  | Some c =>
      let req := mkReleaseRequest id releaseTimestamp in
      emit (EvSendRelease peerID req);;
      match rpcReleaseAccess c req with
      | Some _ => mret tt
      | None => mret tt
      end
  end.

(** ** Server functions *)

(** The grant/defer test of [RequestAccess]:
    [n.InCS || (n.WantCS && n.isHigherPriority(n.CurrentRequest, req))]. *)
Definition defers (n : Node) (req : AccessRequest) : bool :=
  InCS n || (WantCS n && isHigherPriority (CurrentRequest n) (Some req)).

(** [RequestAccess]: merge the request's timestamp, then either push the
    requester on the back of the deferred list, or answer and, through the
    deferred call of [SendReleaseMSG], call the requester's [ReleaseAccess]
    as the handler returns.  The arguments of the deferred call, the client
    [n.Peers[req.NodeId]] among them, are taken when [defer] is executed. *)
Definition RequestAccess (req : AccessRequest) : Op AccessResponse :=
  timestamp ← UpdateLamportClock (LamportTimestamp req);
  d ← get (fun n => defers n req);
  if (d : bool) then
    l ← get DeferredResponses;
    modify (set_DeferredResponses (l ++ [NodeId req]));;
    mret (mkAccessResponse false timestamp)
  else
    client ← get (fun n => Peers n !! NodeId req);
    SendReleaseMSG (NodeId req) client timestamp;;
    mret (mkAccessResponse false timestamp).

(** Capacity of the [Release] channel, [make(chan bool, 1)]. *)
Definition Release_cap : nat := 1.

(** [n.Release <- v]: the sender blocks while the buffer is full. *)
Definition Release_send (v : bool) : Op unit :=
  ch ← get Release;
  if (length ch <? Release_cap)%nat
  then modify (set_Release (ch ++ [v]))
  else block.

(** [<-n.Release]: the receiver blocks while the buffer is empty. *)
Definition Release_recv : Op bool :=
  ch ← get Release;
  match ch with
  | v :: rest => modify (set_Release rest);; mret v
  | [] => block
  end.

(** [ReleaseAccess]: merge the timestamp, put [true] on [Release],
    acknowledge. *)
Definition ReleaseAccess (req : ReleaseRequest) : Op ReleaseResponse :=
  timestamp ← UpdateLamportClock (RelTimestamp req);
  Release_send true;;
  mret (mkReleaseResponse true timestamp).

(** ** Client functions *)

(** [ExecuteCriticalSection], first half: the flag is raised and the body
    of the critical section runs. *)
Definition enterCS : Op unit :=
  emit EvEnterCS;;
  modify (set_InCS true).

(** The release loop: while the deferred list is not empty, send a release
    to its front element and remove it.  The list shrinks by one in each
    round, so its length at entry bounds the number of rounds. *)
Fixpoint flushDeferred (rounds : nat) (releaseTimestamp : Z) : Op unit :=
  match rounds with
  | O => mret tt
  | S rounds' =>
      l ← get DeferredResponses;
      match l with
      | [] => mret tt
      | peerID :: rest =>
          client ← get (fun n => Peers n !! peerID);
          SendReleaseMSG peerID client releaseTimestamp;;
          modify (set_DeferredResponses rest);;
          flushDeferred rounds' releaseTimestamp
      end
  end.

(** [ExecuteCriticalSection], second half: both flags are lowered, the
    clock is ticked for the release timestamp, the deferred list is
    flushed.  [CurrentRequest] is not written. *)
Definition leaveCS : Op unit :=
  modify (set_InCS false);;
  modify (set_WantCS false);;
  releaseTimestamp ← GetLamportClock;
  emit (EvLeaveCS releaseTimestamp);;
  l ← get DeferredResponses;
  flushDeferred (length l) releaseTimestamp.

Definition ExecuteCriticalSection : Op unit :=
  enterCS;;
  leaveCS.

(** The message gRPC puts on the wire for a request pointer; a nil message
    is encoded like the empty one. *)
Definition wire (r : option AccessRequest) : AccessRequest :=
  default (mkAccessRequest "" 0) r.

(** The goroutine started for one peer, up to its receive on [Release].
    On a transport error it has sent [false] on [responses] (result
    [Some false]); otherwise it has merged the response's timestamp and
    goes on to forward one value from [Release] (result [None]). *)
Definition requestPeer (id : string) (c : MutexServiceClient) : Op (option bool) :=
  cur ← get CurrentRequest;
  emit (EvSendRequest id cur);;
  match rpcRequestAccess c (wire cur) with
  | None => mret (Some false)
  | Some resp =>
      UpdateLamportClock (RespTimestamp resp);;
      mret None
  end.

(** The goroutines of all peers, run up to that point one after the other
    in the order of the list. *)
Fixpoint requestPeers (ps : list (string * MutexServiceClient)) : Op (list (option bool)) :=
  match ps with
  | [] => mret []
  | (id, c) :: ps' =>
      o ← requestPeer id c;
      os ← requestPeers ps';
      mret (o :: os)
  end.

(** The goroutines that wait on [Release].  Each takes one value: the one
    the buffer holds, or else the one the next inbound [ReleaseAccess] call
    puts there; with the buffer empty and no call left the goroutine, and
    with it the acquisition, blocks. *)
Fixpoint awaitReleases (waiting : nat) (inbound : list ReleaseRequest) : Op (list bool) :=
  match waiting with
  | O => mret []
  | S waiting' =>
      ch ← get Release;
      match ch, inbound with
      | [], [] => block
      | [], r :: inbound' =>
          ReleaseAccess r;;
          v ← Release_recv;
          vs ← awaitReleases waiting' inbound';
          mret (v :: vs)
      | _ :: _, _ =>
          v ← Release_recv;
          vs ← awaitReleases waiting' inbound;
          mret (v :: vs)
      end
  end.

(** The values the main loop reads from [responses]: the [false] of each
    failed request, then what the waiting goroutines forwarded. *)
Definition responses (outs : list (option bool)) (vs : list bool) : list bool :=
  omap (fun o => o) outs ++ vs.

(** [granted], the number of [true] values among them. *)
Definition tally (rs : list bool) : Z :=
  Z.of_nat (length (filter (fun b => b = true) rs)).

(** [RequestCriticalSection] from RELEASED to WANTED: the flag, a tick, the
    request stamped with it, the counter. *)
Definition stampRequest : Op unit :=
  modify (set_WantCS true);;
  timestamp ← GetLamportClock;
  id ← get ID;
  modify (set_CurrentRequest (Some (mkAccessRequest id timestamp)));;
  modify (set_ResponseCount 0).

(** The fan-out and the loop that waits for one value per peer; the result
    is the pair of the locals [granted] and [needed] when the loop ends.
    [inbound] lists the [ReleaseAccess] calls that reach the node while it
    waits.  The schedule is: the request of every peer first, in the order
    of [map_to_list], then the receives on [Release]. *)
Definition collectResponses (inbound : list ReleaseRequest) : Op (Z * Z) :=
  peers ← get (fun n => map_to_list (Peers n));
  outs ← requestPeers peers;
  vs ← awaitReleases (length (filter (fun o => o = None) outs)) inbound;
  mret (tally (responses outs vs), Z.of_nat (length peers)).

(** [RequestCriticalSection]: nothing when the node is HELD or WANTED;
    otherwise stamp the request, collect a value per peer, and call
    [ExecuteCriticalSection].  The call does not depend on [granted]. *)
Definition RequestCriticalSection (inbound : list ReleaseRequest) : Op unit :=
  inCS ← get InCS;
  wantCS ← get WantCS;
  if (inCS || wantCS : bool) then mret tt
  else
    stampRequest;;
    counts ← collectResponses inbound;
    ExecuteCriticalSection.

(** ** Reading outcomes *)

Definition final {A} (o : Outcome A) : Node :=
  match o with
  | Done _ n _ | Panicked n _ | Blocked n _ => n
  end.

Definition trace {A} (o : Outcome A) : list Event :=
  match o with
  | Done _ _ tr | Panicked _ tr | Blocked _ tr => tr
  end.

Definition returned {A} (o : Outcome A) : option A :=
  match o with
  | Done a _ _ => Some a
  | _ => None
  end.

(** The release messages of a trace, with their addressee. *)
Definition releasesSent (tr : list Event) : list (string * ReleaseRequest) :=
  omap (fun e => match e with
                 | EvSendRelease p r => Some (p, r)
                 | _ => None
                 end) tr.

(** ** Predicates and operations used in the statements *)

(** The release events of one flush, in list order. *)
Definition releaseEvents (id : string) (ts : Z) (l : list string) : list Event :=
  map (fun peerID => EvSendRelease peerID (mkReleaseRequest id ts)) l.

(** The identity, the two flags and the current request. *)
Definition keeps (n n' : Node) : Prop :=
  ID n' = ID n /\ WantCS n' = WantCS n /\ InCS n' = InCS n /\
  CurrentRequest n' = CurrentRequest n.

(** A computation that keeps them, whatever its outcome. *)
Definition Preserving {A} (m : Op A) : Prop :=
  forall n, keeps n (final (m n)).

(** ** Fixtures: a peer that answers and one that cannot be reached *)

Definition answeringClient (ts : Z) : MutexServiceClient :=
  mkClient (fun _ => Some (mkAccessResponse false ts))
           (fun _ => Some (mkReleaseResponse true ts)).

Definition unreachableClient : MutexServiceClient :=
  mkClient (fun _ => None) (fun _ => None).

(** node1 of the README, connected to node2 and node3. *)
Definition node1 : Node :=
  ConnectToPeer "node3" (answeringClient 0)
    (ConnectToPeer "node2" (answeringClient 0)
       (NewNode "node1" "localhost:5001")).

(** node1 with node2 as its only peer, out of reach. *)
Definition node1_cut_off : Node :=
  ConnectToPeer "node2" unreachableClient (NewNode "node1" "localhost:5001").

(** node1 after it stamped a request with timestamp 5. *)
Definition node1_wanted : Node :=
  final (stampRequest (set_LamportClock 4 node1)).

(** node1 inside the critical section it asked for at timestamp 5. *)
Definition node1_held : Node :=
  final (enterCS node1_wanted).

(** node2 of the README, after it stamped a request with timestamp 5. *)
Definition node2_wanted : Node :=
  final (stampRequest
           (set_LamportClock 4
              (ConnectToPeer "node3" (answeringClient 0)
                 (ConnectToPeer "node1" (answeringClient 0)
                    (NewNode "node2" "localhost:5002"))))).

(** ** Further readings of outcomes, traces and runs *)

(** An outcome with a trace put in front of its own. *)
Definition prepend {A} (tr : list Event) (o : Outcome A) : Outcome A :=
  match o with
  | Done a n t => Done a n (tr ++ t)
  | Panicked n t => Panicked n (tr ++ t)
  | Blocked n t => Blocked n (tr ++ t)
  end.

(** The request messages of a trace, with their addressee. *)
Definition requestsSent (tr : list Event) : list (string * option AccessRequest) :=
  omap (fun e => match e with
                 | EvSendRequest p r => Some (p, r)
                 | _ => None
                 end) tr.

Definition isRequestEvent (e : Event) : Prop :=
  match e with
  | EvSendRequest _ _ => True
  | _ => False
  end.

(** A computation none of whose events satisfies [P], whatever its
    outcome. *)
Definition Silent (P : Event -> Prop) {A} (m : Op A) : Prop :=
  forall n, Forall (fun e => ~ P e) (trace (m n)).

(** What the goroutine of a peer puts on [responses] before it waits, and
    what it does to the clock. *)
Definition peerResult (cur : option AccessRequest) (p : string * MutexServiceClient)
    : option bool :=
  match rpcRequestAccess p.2 (wire cur) with
  | None => Some false
  | Some _ => None
  end.

Definition mergeResponse (cur : option AccessRequest) (c : Z)
    (p : string * MutexServiceClient) : Z :=
  match rpcRequestAccess p.2 (wire cur) with
  | None => c
  | Some resp => u64_incr (Z.max c (RespTimestamp resp))
  end.

(** The number of peers whose client answers the request. *)
Definition answeringPeers (n : Node) (req : AccessRequest) : nat :=
  length (filter (fun p : string * MutexServiceClient =>
                    is_Some (rpcRequestAccess p.2 req))
            (map_to_list (Peers n))).

(** Inbound requests handled one after the other. *)
Definition handleAll (reqs : list AccessRequest) (n : Node) : Node :=
  foldl (fun n req => final (RequestAccess req n)) n reqs.

(** * The draft with a request queue (peer/peer.go, third version)

    The same service with a sorted [RequestQueue] of the requests seen, a
    map for [DeferredResponses], grants given in the [RequestAccess]
    response and releases sent to every peer.  Nothing in this draft
    panics or waits on a channel that may stay empty, so its operations
    are plain functions of the node; a goroutine it starts with [go] and
    does not wait for is returned as the identity of the peer it will
    call. *)

Module Queued.

Record Request := mkRequest {
  NodeID : string;
  Timestamp : Z
}.

Record Node := mkNode {
  ID : string;
  Address : string;
  Peers : gmap string MutexServiceClient;
  LamportClock : Z;
  WantCS : bool;
  InCS : bool;
  RequestQueue : list Request;
  DeferredResponses : gmap string bool;
  ResponseCount : Z;
  CurrentRequest : option Request
}.

Definition set_LamportClock (c : Z) (n : Node) : Node :=
  mkNode (ID n) (Address n) (Peers n) c (WantCS n) (InCS n)
         (RequestQueue n) (DeferredResponses n) (ResponseCount n) (CurrentRequest n).

Definition set_WantCS (b : bool) (n : Node) : Node :=
  mkNode (ID n) (Address n) (Peers n) (LamportClock n) b (InCS n)
         (RequestQueue n) (DeferredResponses n) (ResponseCount n) (CurrentRequest n).

Definition set_InCS (b : bool) (n : Node) : Node :=
  mkNode (ID n) (Address n) (Peers n) (LamportClock n) (WantCS n) b
         (RequestQueue n) (DeferredResponses n) (ResponseCount n) (CurrentRequest n).

Definition set_RequestQueue (q : list Request) (n : Node) : Node :=
  mkNode (ID n) (Address n) (Peers n) (LamportClock n) (WantCS n) (InCS n)
         q (DeferredResponses n) (ResponseCount n) (CurrentRequest n).

Definition set_DeferredResponses (d : gmap string bool) (n : Node) : Node :=
  mkNode (ID n) (Address n) (Peers n) (LamportClock n) (WantCS n) (InCS n)
         (RequestQueue n) d (ResponseCount n) (CurrentRequest n).

Definition set_ResponseCount (k : Z) (n : Node) : Node :=
  mkNode (ID n) (Address n) (Peers n) (LamportClock n) (WantCS n) (InCS n)
         (RequestQueue n) (DeferredResponses n) k (CurrentRequest n).

Definition set_CurrentRequest (r : option Request) (n : Node) : Node :=
  mkNode (ID n) (Address n) (Peers n) (LamportClock n) (WantCS n) (InCS n)
         (RequestQueue n) (DeferredResponses n) (ResponseCount n) r.

Definition set_Peers (p : gmap string MutexServiceClient) (n : Node) : Node :=
  mkNode (ID n) (Address n) p (LamportClock n) (WantCS n) (InCS n)
         (RequestQueue n) (DeferredResponses n) (ResponseCount n) (CurrentRequest n).

Definition NewNode (id address : string) : Node :=
  mkNode id address ∅ 0 false false [] ∅ 0 None.

Definition ConnectToPeer (peerID : string) (c : MutexServiceClient) (n : Node) : Node :=
  set_Peers (<[peerID := c]> (Peers n)) n.

Definition UpdateLamportClock (msgTimestamp : Z) (n : Node) : Node * Z :=
  let n1 := if LamportClock n <? msgTimestamp
            then set_LamportClock msgTimestamp n else n in
  let n2 := set_LamportClock (u64_incr (LamportClock n1)) n1 in
  (n2, LamportClock n2).

Definition GetLamportClock (n : Node) : Node * Z :=
  let n1 := set_LamportClock (u64_incr (LamportClock n)) n in
  (n1, LamportClock n1).

Definition isHigherPriority (req1 req2 : option Request) : bool :=
  match req1, req2 with
  | Some r1, Some r2 =>
      if Timestamp r1 =? Timestamp r2
      then String.ltb (NodeID r1) (NodeID r2)
      else Timestamp r1 <? Timestamp r2
  | _, _ => false
  end.

(** The comparison handed to [sort.Slice]: by timestamp, then by
    identity. *)
Definition less (a b : Request) : bool :=
  if Timestamp a =? Timestamp b
  then String.ltb (NodeID a) (NodeID b)
  else Timestamp a <? Timestamp b.

(** [a] may stand before [b] in a slice sorted with [less]. *)
Definition notAfter (a b : Request) : Prop := less b a = false.

#[global] Instance notAfter_dec : RelDecision notAfter.
Proof. intros a b. unfold notAfter. apply _. Defined.

(** [sort.Slice(queue, less)].  The library promises a slice sorted with
    respect to [less] and holding the same elements; [less] orders any two
    different requests, so there is one such slice and a merge sort
    computes it. *)
Definition sortSlice (q : list Request) : list Request :=
  merge_sort notAfter q.

(** The grant/defer test of this draft's [RequestAccess]. *)
Definition defers (n : Node) (r : Request) : bool :=
  InCS n || (WantCS n && isHigherPriority (CurrentRequest n) (Some r)).

(** [RequestAccess]: merge the timestamp, append the request to the queue
    and sort the queue, then defer (mark the requester in the map, answer
    [false]) or grant (answer [true]). *)
Definition RequestAccess (req : AccessRequest) (n : Node) : Node * AccessResponse :=
  let '(n1, timestamp) := UpdateLamportClock (LamportTimestamp req) n in
  let r := mkRequest (NodeId req) (LamportTimestamp req) in
  let n2 := set_RequestQueue (sortSlice (RequestQueue n1 ++ [r])) n1 in
  if defers n2 r
  then (set_DeferredResponses (<[NodeId req := true]> (DeferredResponses n2)) n2,
        mkAccessResponse false timestamp)
  else (n2, mkAccessResponse true timestamp).

(** The loop of [ReleaseAccess] that drops the first entry of the
    releasing node. *)
Fixpoint removeFirst (id : string) (q : list Request) : list Request :=
  match q with
  | [] => []
  | r :: q' => if String.eqb (NodeID r) id then q' else r :: removeFirst id q'
  end.

(** The peer that the goroutine started for the head of the queue will
    call, if the queue is not empty and that peer has a client. *)
Definition headPeer (q : list Request) (peers : gmap string MutexServiceClient)
    : option string :=
  match q with
  | [] => None
  | nextReq :: _ =>
      match peers !! NodeID nextReq with
      | Some _ => Some (NodeID nextReq)
      | None => None
      end
  end.

(** [ReleaseAccess]: merge the timestamp, drop the releasing node's first
    entry, and if the node does not want the critical section start a
    goroutine for the head of the queue. *)
Definition ReleaseAccess (req : ReleaseRequest) (n : Node)
    : Node * ReleaseResponse * option string :=
  let '(n1, timestamp) := UpdateLamportClock (RelTimestamp req) n in
  let n2 := set_RequestQueue (removeFirst (RelNodeId req) (RequestQueue n1)) n1 in
  let started := if negb (WantCS n2)
                 then headPeer (RequestQueue n2) (Peers n2) else None in
  (n2, mkReleaseResponse true timestamp, started).

(** The body of such a goroutine: a [RequestAccess] call in the node's own
    name, stamped with a fresh tick; its response is dropped. *)
Definition startedRequest (peerID : string) (n : Node) : Node * Event :=
  let '(n1, timestamp) := GetLamportClock n in
  (n1, EvSendRequest peerID (Some (mkAccessRequest (ID n) timestamp))).

(** [ExecuteCriticalSection]: the body, both flags lowered, a tick for the
    release timestamp, a release to every peer, the current request
    cleared, the head of the queue popped and a goroutine started for
    it. *)
Definition ExecuteCriticalSection (n : Node) : Node * list Event * option string :=
  let n1 := set_WantCS false (set_InCS false n) in
  let '(n2, releaseTimestamp) := GetLamportClock n1 in
  let releases :=
    map (fun p : string * MutexServiceClient =>
           EvSendRelease p.1 (mkReleaseRequest (ID n2) releaseTimestamp))
        (map_to_list (Peers n2)) in
  let n3 := set_CurrentRequest None n2 in
  let tr := EvEnterCS :: EvLeaveCS releaseTimestamp :: releases in
  match RequestQueue n3 with
  | [] => (n3, tr, None)
  | nextReq :: rest =>
      (set_RequestQueue rest n3, tr, headPeer (nextReq :: rest) (Peers n3))
  end.

(** The goroutine of one peer in [RequestCriticalSection]: the value it
    sends on [responses] is [false] on a transport error and the
    response's [Granted] otherwise, after merging the response's
    timestamp. *)
Definition askPeer (timestamp : Z) (acc : Node * list bool * list Event)
    (p : string * MutexServiceClient) : Node * list bool * list Event :=
  let '(n, rs, tr) := acc in
  let req := mkAccessRequest (ID n) timestamp in
  let tr' := tr ++ [EvSendRequest p.1 (Some req)] in
  match rpcRequestAccess p.2 req with
  | None => (n, rs ++ [false], tr')
  | Some resp =>
      ((UpdateLamportClock (RespTimestamp resp) n).1, rs ++ [Granted resp], tr')
  end.

(** [RequestCriticalSection]: nothing when HELD or WANTED; otherwise stamp
    the request, ask every peer (in the order of [map_to_list]), and enter
    if all of them granted, else give up by lowering [WantCS]. *)
Definition RequestCriticalSection (n : Node) : Node * list Event * option string :=
  if InCS n || WantCS n then (n, [], None)
  else
    let n1 := set_WantCS true n in
    let '(n2, timestamp) := GetLamportClock n1 in
    let n3 := set_ResponseCount 0
                (set_CurrentRequest (Some (mkRequest (ID n2) timestamp)) n2) in
    let peers := map_to_list (Peers n3) in
    let '(n4, rs, tr) := foldl (askPeer timestamp) (n3, [], []) peers in
    let granted := length (filter (fun b => b = true) rs) in
    let needed := length peers in
    if (granted =? needed)%nat
    then
      let '(n5, tr', started) := ExecuteCriticalSection (set_InCS true n4) in
      (n5, tr ++ tr', started)
    else (set_WantCS false n4, tr, None).

(** A slice sorted with [less], as a predicate. *)
Definition sorted (q : list Request) : Prop := Sorted notAfter q.

(** The peers that grant a request of the node stamped [timestamp]. *)
Definition grants (timestamp : Z) (n : Node) (p : string * MutexServiceClient) : Prop :=
  exists resp, rpcRequestAccess p.2 (mkAccessRequest (ID n) timestamp) = Some resp /\
               Granted resp = true.

End Queued.

(** * The draft with wall-clock timestamps (peer/peer.go, second version)

    Requests are stamped with [time.Now().UnixNano()], a signed 64-bit
    integer handed to the model as an argument; the messages carry no
    Lamport timestamp; one mutex [mu] guards the node.  [mu] is a
    [sync.Mutex], which is not reentrant: [Lock] on a held mutex blocks,
    also for the goroutine that holds it. *)

Module Locked.

(** The client side of this draft's service: a request carries the
    sender's identity and timestamp and is answered by [Granted] or fails;
    a release carries the identity and is answered by [Acknowledged] or
    fails. *)
Record Client := mkClient {
  rpcRequestAccess : string -> Z -> option bool;
  rpcReleaseAccess : string -> option bool
}.

Record Node := mkNode {
  ID : string;
  Address : string;
  Peers : gmap string Client;
  RequestTimestamp : Z;
  WantCS : bool;
  InCS : bool;
  DeferredResponses : list string;
  ResponseCount : Z;
  mu : bool
}.

Definition set_RequestTimestamp (t : Z) (n : Node) : Node :=
  mkNode (ID n) (Address n) (Peers n) t (WantCS n) (InCS n)
         (DeferredResponses n) (ResponseCount n) (mu n).

Definition set_WantCS (b : bool) (n : Node) : Node :=
  mkNode (ID n) (Address n) (Peers n) (RequestTimestamp n) b (InCS n)
         (DeferredResponses n) (ResponseCount n) (mu n).

Definition set_InCS (b : bool) (n : Node) : Node :=
  mkNode (ID n) (Address n) (Peers n) (RequestTimestamp n) (WantCS n) b
         (DeferredResponses n) (ResponseCount n) (mu n).

Definition set_DeferredResponses (d : list string) (n : Node) : Node :=
  mkNode (ID n) (Address n) (Peers n) (RequestTimestamp n) (WantCS n) (InCS n)
         d (ResponseCount n) (mu n).

Definition set_ResponseCount (k : Z) (n : Node) : Node :=
  mkNode (ID n) (Address n) (Peers n) (RequestTimestamp n) (WantCS n) (InCS n)
         (DeferredResponses n) k (mu n).

Definition set_mu (b : bool) (n : Node) : Node :=
  mkNode (ID n) (Address n) (Peers n) (RequestTimestamp n) (WantCS n) (InCS n)
         (DeferredResponses n) (ResponseCount n) b.

Definition set_Peers (p : gmap string Client) (n : Node) : Node :=
  mkNode (ID n) (Address n) p (RequestTimestamp n) (WantCS n) (InCS n)
         (DeferredResponses n) (ResponseCount n) (mu n).

Definition NewNode (id address : string) : Node :=
  mkNode id address ∅ 0 false false [] 0 false.

Definition ConnectToPeer (peerID : string) (c : Client) (n : Node) : Node :=
  set_Peers (<[peerID := c]> (Peers n)) n.

Inductive Event :=
| EvSendRequest (peer : string) (nodeId : string) (timestamp : Z)
| EvSendRelease (peer : string) (nodeId : string)
| EvEnterCS
| EvLeaveCS.

(** A call returns, or it is stuck for ever in [mu.Lock()]. *)
Inductive Result (A : Type) :=
| Returned (a : A) (n : Node) (tr : list Event)
| Stuck (n : Node) (tr : list Event).

Arguments Returned {A} a n tr.
Arguments Stuck {A} n tr.

Definition node {A} (r : Result A) : Node :=
  match r with Returned _ n _ | Stuck n _ => n end.

Definition events {A} (r : Result A) : list Event :=
  match r with Returned _ _ tr | Stuck _ tr => tr end.

(** [RequestAccess], entered with [mu.Lock()] and left with the deferred
    [mu.Unlock()]. *)
Definition RequestAccess (nodeId : string) (timestamp : Z) (n : Node) : Result bool :=
  if mu n then Stuck n []
  else if InCS n || (WantCS n && (RequestTimestamp n <? timestamp))
       then Returned false
              (set_DeferredResponses (DeferredResponses n ++ [nodeId]) n) []
       else Returned true n [].

Definition ReleaseAccess (nodeId : string) (n : Node) : Result bool :=
  if mu n then Stuck n [] else Returned true n [].

(** The release loop of [ExecuteCriticalSection]: a release to every
    deferred identity that has a client, the others skipped. *)
Definition releaseDeferred (n : Node) : list Event :=
  omap (fun peerID => match Peers n !! peerID with
                      | Some _ => Some (EvSendRelease peerID (ID n))
                      | None => None
                      end) (DeferredResponses n).

(** [ExecuteCriticalSection]: the body of the critical section between
    the two log lines, then [mu.Lock()], the flags lowered, the releases,
    the list emptied, [mu.Unlock()]. *)
Definition ExecuteCriticalSection (n : Node) : Result unit :=
  let tr := [EvEnterCS; EvLeaveCS] in
  if mu n then Stuck n tr
  else
    let n1 := set_WantCS false (set_InCS false n) in
    Returned tt (set_DeferredResponses [] n1) (tr ++ releaseDeferred n1).

(** The goroutine of one peer: the request, and on [Granted] the count
    under [mu]; the goroutine that brings the count to the number of peers
    raises [InCS] and calls [ExecuteCriticalSection] with [mu] still
    held. *)
Definition askPeer (r : Result unit) (p : string * Client) : Result unit :=
  match r with
  | Stuck n tr => Stuck n (tr ++ [EvSendRequest p.1 (ID n) (RequestTimestamp n)])
  | Returned _ n tr =>
      let tr1 := tr ++ [EvSendRequest p.1 (ID n) (RequestTimestamp n)] in
      match rpcRequestAccess p.2 (ID n) (RequestTimestamp n) with
      | None | Some false => Returned tt n tr1
      | Some true =>
          if mu n then Stuck n tr1
          else
            let n1 := set_ResponseCount (ResponseCount n + 1) (set_mu true n) in
            if ResponseCount n1 =? Z.of_nat (size (Peers n1))
            then
              match ExecuteCriticalSection (set_InCS true n1) with
              | Returned _ n2 tr2 => Returned tt (set_mu false n2) (tr1 ++ tr2)
              | Stuck n2 tr2 => Stuck n2 (tr1 ++ tr2)
              end
            else Returned tt (set_mu false n1) tr1
      end
  end.

(** [RequestCriticalSection] at wall-clock time [now], with the goroutines
    it starts run one after the other in the order of [map_to_list].  A
    goroutine stuck on [mu] keeps it; the goroutines after it that are
    still send their request and, if granted, block on [mu] as well. *)
Definition RequestCriticalSection (now : Z) (n : Node) : Result unit :=
  if mu n then Stuck n []
  else
    let n1 := set_ResponseCount 0 (set_RequestTimestamp now (set_WantCS true n)) in
    foldl askPeer (Returned tt n1 []) (map_to_list (Peers n1)).

Definition isRelease (e : Event) : Prop :=
  match e with
  | EvSendRelease _ _ => True
  | _ => False
  end.

(** Every peer grants a request of [id] stamped [timestamp]. *)
Definition allGrant (id : string) (timestamp : Z) (ps : list (string * Client)) : Prop :=
  Forall (fun p : string * Client => rpcRequestAccess p.2 id timestamp = Some true) ps.

End Locked.

(** * Start-up: the peers flag (main.go)

    [main] splits the [-peers] flag at commas, splits every entry at
    [@] into an identity and an address, stops the process with
    [log.Fatalf] on an entry that does not have exactly two parts, and
    calls [ConnectToPeer] for the others; a failed connection is logged
    and the loop goes on.  The dialling of an address is a parameter. *)

Module Main.

(** [strings.Split(s, sep)] for a separator of one byte: the pieces of [s]
    between the occurrences of [sep], one more than there are
    occurrences. *)
Fixpoint splitOn (sep : ascii) (s : string) : list string :=
  match s with
  | EmptyString => [EmptyString]
  | String c s' =>
      if Ascii.eqb c sep then EmptyString :: splitOn sep s'
      else match splitOn sep s' with
           | [] => [String c EmptyString]
           | w :: ws => String c w :: ws
           end
  end.

(** [strings.Split(peer, "@")] and the test [len(parts) != 2]. *)
Definition parsePeer (peer : string) : option (string * string) :=
  match splitOn "@"%char peer with
  | [peerID; peerAddr] => Some (peerID, peerAddr)
  | _ => None
  end.

(** The loop over the entries; [None] is the process stopped by
    [log.Fatalf]. *)
Fixpoint connectPeers (dial : string -> option MutexServiceClient)
    (entries : list string) (n : Node) : option Node :=
  match entries with
  | [] => Some n
  | peer :: entries' =>
      match parsePeer peer with
      | None => None
      | Some (peerID, peerAddr) =>
          connectPeers dial entries'
            (match dial peerAddr with
             | Some c => ConnectToPeer peerID c n
             | None => n
             end)
      end
  end.

(** The guard [*peers != ""] and the loop. *)
Definition connectFlag (dial : string -> option MutexServiceClient)
    (peers : string) (n : Node) : option Node :=
  if String.eqb peers "" then Some n
  else connectPeers dial (splitOn ","%char peers) n.

(** Whether a byte occurs in a string; an entry [id@addr]; entries joined
    by commas. *)
Fixpoint occurs (c : ascii) (s : string) : bool :=
  match s with
  | EmptyString => false
  | String c' s' => Ascii.eqb c' c || occurs c s'
  end.

Definition entry (p : string * string) : string :=
  (p.1 ++ String "@"%char p.2)%string.

Fixpoint joinWith (sep : ascii) (ws : list string) : string :=
  match ws with
  | [] => EmptyString
  | [w] => w
  | w :: ws' => (w ++ String sep (joinWith sep ws'))%string
  end.

(** A pair that can be written as an entry of the flag: no [@] and no
    comma in the identity or the address. *)
Definition plain (p : string * string) : Prop :=
  occurs "@"%char p.1 = false /\ occurs "@"%char p.2 = false /\
  occurs ","%char p.1 = false /\ occurs ","%char p.2 = false.

(** The connections the pairs stand for, in order. *)
Definition connectAll (dial : string -> option MutexServiceClient)
    (ps : list (string * string)) (n : Node) : Node :=
  foldl (fun n p => match dial p.2 with
                    | Some c => ConnectToPeer p.1 c n
                    | None => n
                    end) n ps.

End Main.

(** ** Fixtures for the draft *)

Definition grantingClient (ts : Z) : MutexServiceClient :=
  mkClient (fun _ => Some (mkAccessResponse true ts))
           (fun _ => Some (mkReleaseResponse true ts)).

(** node1 in the draft, connected to node2 and node3, with two requests
    queued. *)
Definition queued_node1 : Queued.Node :=
  Queued.set_RequestQueue [Queued.mkRequest "node2" 3; Queued.mkRequest "node3" 3]
    (Queued.ConnectToPeer "node3" (grantingClient 4)
       (Queued.ConnectToPeer "node2" (grantingClient 6)
          (Queued.NewNode "node1" "localhost:5001"))).

(** node1 in the draft with wall-clock timestamps, whose peers node2 and
    node3 grant every request; and two nodes that stamped a request at the
    same nanosecond. *)
Definition locked_node1 : Locked.Node :=
  Locked.ConnectToPeer "node3" (Locked.mkClient (fun _ _ => Some true) (fun _ => Some true))
    (Locked.ConnectToPeer "node2"
       (Locked.mkClient (fun _ _ => Some true) (fun _ => Some true))
       (Locked.NewNode "node1" "localhost:5001")).

Definition locked_wanted (id : string) (timestamp : Z) : Locked.Node :=
  Locked.set_RequestTimestamp timestamp
    (Locked.set_WantCS true (Locked.NewNode id "localhost")).

(** * Proofs *)

Ltac op_unfold :=
  unfold mbind, mret, Op_bind, Op_ret, bind, ret, get, modify, emit, panic, block in *.

(** ** The byte-wise order on identities *)

Section StringOrder.

Lemma ltb_compare (s1 s2 : string) :
  String.ltb s1 s2 = true <-> String.compare s1 s2 = Lt.
Proof. unfold String.ltb. destruct (String.compare s1 s2); split; congruence. Qed.

Lemma compare_refl (s : string) : String.compare s s = Eq.
Proof.
  induction s as [|a s IH]; simpl; [reflexivity|].
  unfold Ascii.compare. now rewrite N.compare_refl.
Qed.

Lemma ltb_irrefl (s : string) : String.ltb s s = false.
Proof. unfold String.ltb. now rewrite compare_refl. Qed.

Lemma ltb_not_le (s1 s2 : string) :
  String.ltb s1 s2 = true <-> ~ String.le s2 s1.
Proof.
  unfold String.le, String.leb, String.ltb.
  rewrite (String.compare_antisym s2 s1).
  destruct (String.compare s1 s2); simpl; split; intros H;
    try congruence; try (exfalso; apply H; exact I); tauto.
Qed.

Lemma ltb_asym (s1 s2 : string) :
  String.ltb s1 s2 = true -> String.ltb s2 s1 = false.
Proof.
  unfold String.ltb. rewrite (String.compare_antisym s2 s1).
  destruct (String.compare s1 s2); simpl; congruence.
Qed.

Lemma ltb_total (s1 s2 : string) :
  s1 <> s2 -> String.ltb s1 s2 = false -> String.ltb s2 s1 = true.
Proof.
  unfold String.ltb. rewrite (String.compare_antisym s2 s1).
  destruct (String.compare s1 s2) eqn:E; simpl; try congruence.
  intros Hne _. exfalso. apply Hne. now apply String.compare_eq_iff.
Qed.

Lemma ltb_trans (s1 s2 s3 : string) :
  String.ltb s1 s2 = true -> String.ltb s2 s3 = true -> String.ltb s1 s3 = true.
Proof.
  rewrite !ltb_not_le. intros H12 H23 H31.
  destruct (total String.le s1 s2) as [L12|L21]; [|tauto].
  apply H23. transitivity s1; assumption.
Qed.

End StringOrder.

(** ** The clock *)

Lemma u64_incr_small (z : Z) : 0 <= z < u64_max -> u64_incr z = z + 1.
Proof.
  unfold u64_incr, u64_max, u64_modulus. intros H.
  apply Z.mod_small. lia.
Qed.

Lemma u64_incr_max : u64_incr u64_max = 0.
Proof. reflexivity. Qed.

Lemma u64_incr_range (z : Z) : is_u64 (u64_incr z).
Proof.
  unfold is_u64, u64_incr, u64_modulus. apply Z.mod_pos_bound. reflexivity.
Qed.

Lemma GetLamportClock_run (n : Node) :
  GetLamportClock n =
  Done (u64_incr (LamportClock n)) (set_LamportClock (u64_incr (LamportClock n)) n) [].
Proof. reflexivity. Qed.

Lemma UpdateLamportClock_run (m : Z) (n : Node) :
  UpdateLamportClock m n =
  Done (u64_incr (Z.max (LamportClock n) m))
       (set_LamportClock (u64_incr (Z.max (LamportClock n) m)) n) [].
Proof.
  unfold UpdateLamportClock. op_unfold.
  destruct (Z.ltb_spec (LamportClock n) m) as [Hlt|Hge]; cbn.
  - rewrite Z.max_r by lia. reflexivity.
  - rewrite Z.max_l by lia. reflexivity.
Qed.

(** C8, as amended: short of the largest [uint64], [GetLamportClock] sets
    the clock to [c + 1] and returns it, [UpdateLamportClock] sets it to
    [max c m + 1] and returns it, and neither lowers the clock. *)
Theorem clock_operations (n : Node) (m : Z) :
  is_u64 (LamportClock n) -> is_u64 m ->
  Z.max (LamportClock n) m < u64_max ->
  let c := LamportClock n in
  GetLamportClock n = Done (c + 1) (set_LamportClock (c + 1) n) [] /\
  UpdateLamportClock m n =
    Done (Z.max c m + 1) (set_LamportClock (Z.max c m + 1) n) [] /\
  c <= LamportClock (final (GetLamportClock n)) /\
  c <= LamportClock (final (UpdateLamportClock m n)).
Proof.
  intros [Hc0 _] [Hm0 _] Hmax c.
  rewrite GetLamportClock_run, UpdateLamportClock_run. fold c.
  rewrite (u64_incr_small c) by (subst c; lia).
  rewrite (u64_incr_small (Z.max c m)) by lia.
  cbn. repeat split; lia.
Qed.

Lemma clock_operations_witness :
  let n := set_LamportClock 5 (NewNode "node1" "localhost:5001") in
  GetLamportClock n = Done 6 (set_LamportClock 6 n) [] /\
  UpdateLamportClock 9 n = Done 10 (set_LamportClock 10 n) [] /\
  5 <= LamportClock (final (GetLamportClock n)) /\
  5 <= LamportClock (final (UpdateLamportClock 9 n)).
Proof.
  apply (clock_operations
           (set_LamportClock 5 (NewNode "node1" "localhost:5001")) 9);
    unfold is_u64, u64_max, u64_modulus; cbn; lia.
Defined.

(** C8 fails as stated: a request stamped with the largest [uint64] makes
    the merge wrap, so a clock at 5 is set to 0, which is neither
    [max c m + 1] nor at least the clock before. *)
Lemma clock_merge_wraps :
  let n := set_LamportClock 5 (NewNode "node1" "localhost:5001") in
  let m := 18446744073709551615 in
  is_u64 (LamportClock n) /\ is_u64 m /\
  returned (UpdateLamportClock m n) = Some 0 /\
  LamportClock (final (UpdateLamportClock m n)) = 0 /\
  ~ (LamportClock (final (UpdateLamportClock m n)) = Z.max (LamportClock n) m + 1) /\
  ~ (LamportClock n <= LamportClock (final (UpdateLamportClock m n))).
Proof.
  cbv zeta. rewrite UpdateLamportClock_run.
  change (LamportClock (set_LamportClock 5 (NewNode "node1" "localhost:5001"))) with 5.
  replace (u64_incr (Z.max 5 18446744073709551615)) with 0 by (vm_compute; reflexivity).
  unfold is_u64, u64_modulus. cbn [returned final LamportClock set_LamportClock].
  repeat split; lia.
Qed.

(** ** The request ordering *)

(** A nil request has no priority over anything and nothing has priority
    over it. *)
Lemma isHigherPriority_nil_l (r : option AccessRequest) :
  isHigherPriority None r = false.
Proof. reflexivity. Qed.

Lemma isHigherPriority_nil_r (r : option AccessRequest) :
  isHigherPriority r None = false.
Proof. destruct r; reflexivity. Qed.

Lemma isHigherPriority_spec (r1 r2 : AccessRequest) :
  isHigherPriority (Some r1) (Some r2) = true <->
  LamportTimestamp r1 < LamportTimestamp r2 \/
  (LamportTimestamp r1 = LamportTimestamp r2 /\
   String.ltb (NodeId r1) (NodeId r2) = true).
Proof.
  cbn. destruct (Z.eqb_spec (LamportTimestamp r1) (LamportTimestamp r2)) as [E|N].
  - split; [intros H; right; now split | intros [H|[_ H]]; [lia | assumption]].
  - rewrite Z.ltb_lt. split; [now left | intros [H|[H _]]; [assumption | contradiction]].
Qed.

Lemma isHigherPriority_asym (r1 r2 : AccessRequest) :
  isHigherPriority (Some r1) (Some r2) = true ->
  isHigherPriority (Some r2) (Some r1) = false.
Proof.
  intros H. apply isHigherPriority_spec in H.
  apply not_true_is_false. intros H'. apply isHigherPriority_spec in H'.
  destruct H as [H|[E H]], H' as [H'|[E' H']]; try lia.
  apply ltb_asym in H. congruence.
Qed.

Lemma isHigherPriority_total (r1 r2 : AccessRequest) :
  r1 <> r2 ->
  isHigherPriority (Some r1) (Some r2) = false ->
  isHigherPriority (Some r2) (Some r1) = true.
Proof.
  intros Hne H. apply isHigherPriority_spec.
  apply not_true_iff_false in H. rewrite isHigherPriority_spec in H.
  destruct (Z.lt_trichotomy (LamportTimestamp r1) (LamportTimestamp r2))
    as [L|[E|G]]; [tauto | | left; lia].
  right. split; [congruence|].
  apply ltb_total.
  - intros Hid. apply Hne. destruct r1, r2; cbn in *; congruence.
  - apply not_true_iff_false. tauto.
Qed.

Lemma isHigherPriority_trans (r1 r2 r3 : AccessRequest) :
  isHigherPriority (Some r1) (Some r2) = true ->
  isHigherPriority (Some r2) (Some r3) = true ->
  isHigherPriority (Some r1) (Some r3) = true.
Proof.
  rewrite !isHigherPriority_spec.
  intros [H12|[E12 S12]] [H23|[E23 S23]]; try (left; lia).
  right. split; [lia|]. eapply ltb_trans; eassumption.
Qed.

(** C7: on two distinct requests exactly one of the two comparisons
    holds, the comparison is transitive, the lower timestamp wins and equal
    timestamps are decided by the lower identity. *)
Theorem isHigherPriority_strict_total (r1 r2 r3 : AccessRequest) :
  r1 <> r2 ->
  (isHigherPriority (Some r1) (Some r2) = true /\
   isHigherPriority (Some r2) (Some r1) = false \/
   isHigherPriority (Some r1) (Some r2) = false /\
   isHigherPriority (Some r2) (Some r1) = true) /\
  (isHigherPriority (Some r1) (Some r2) = true ->
   isHigherPriority (Some r2) (Some r3) = true ->
   isHigherPriority (Some r1) (Some r3) = true) /\
  (LamportTimestamp r1 < LamportTimestamp r2 ->
   isHigherPriority (Some r1) (Some r2) = true) /\
  (LamportTimestamp r1 = LamportTimestamp r2 ->
   isHigherPriority (Some r1) (Some r2) = String.ltb (NodeId r1) (NodeId r2)).
Proof.
  intros Hne. repeat split.
  - destruct (isHigherPriority (Some r1) (Some r2)) eqn:H12.
    + left. split; [reflexivity | now apply isHigherPriority_asym].
    + right. split; [reflexivity | now apply isHigherPriority_total].
  - apply isHigherPriority_trans.
  - intros Hlt. apply isHigherPriority_spec. now left.
  - intros Heq. cbn. apply Z.eqb_eq in Heq. now rewrite Heq.
Qed.

Lemma isHigherPriority_strict_total_witness :
  let r1 := mkAccessRequest "node1" 5 in
  let r2 := mkAccessRequest "node2" 5 in
  let r3 := mkAccessRequest "node1" 7 in
  (isHigherPriority (Some r1) (Some r2) = true /\
   isHigherPriority (Some r2) (Some r1) = false \/
   isHigherPriority (Some r1) (Some r2) = false /\
   isHigherPriority (Some r2) (Some r1) = true) /\
  (isHigherPriority (Some r1) (Some r2) = true ->
   isHigherPriority (Some r2) (Some r3) = true ->
   isHigherPriority (Some r1) (Some r3) = true) /\
  (LamportTimestamp r1 < LamportTimestamp r2 ->
   isHigherPriority (Some r1) (Some r2) = true) /\
  (LamportTimestamp r1 = LamportTimestamp r2 ->
   isHigherPriority (Some r1) (Some r2) = String.ltb (NodeId r1) (NodeId r2)).
Proof.
  apply (isHigherPriority_strict_total
           (mkAccessRequest "node1" 5) (mkAccessRequest "node2" 5)
           (mkAccessRequest "node1" 7)).
  discriminate.
Defined.

(** ** The inbound request handler *)

Lemma SendReleaseMSG_run (peerID : string) (c : MutexServiceClient) (ts : Z) (n : Node) :
  SendReleaseMSG peerID (Some c) ts n =
  Done tt n [EvSendRelease peerID (mkReleaseRequest (ID n) ts)].
Proof.
  unfold SendReleaseMSG. op_unfold. cbn.
  destruct (rpcReleaseAccess c _); reflexivity.
Qed.

Lemma SendReleaseMSG_nil (peerID : string) (ts : Z) (n : Node) :
  SendReleaseMSG peerID None ts n = Panicked n [].
Proof. reflexivity. Qed.

(** The handler in closed form. *)
Lemma RequestAccess_run (req : AccessRequest) (n : Node) :
  let ts := u64_incr (Z.max (LamportClock n) (LamportTimestamp req)) in
  let n1 := set_LamportClock ts n in
  RequestAccess req n =
  if defers n req
  then Done (mkAccessResponse false ts)
            (set_DeferredResponses (DeferredResponses n ++ [NodeId req]) n1) []
  else match Peers n !! NodeId req with
       | Some c => Done (mkAccessResponse false ts) n1
                        [EvSendRelease (NodeId req) (mkReleaseRequest (ID n) ts)]
       | None => Panicked n1 []
       end.
Proof.
  intros ts n1. unfold RequestAccess.
  unfold mbind at 1, Op_bind at 1, bind at 1.
  rewrite UpdateLamportClock_run. fold ts. fold n1.
  change (defers n req) with (defers n1 req).
  op_unfold. cbn.
  destruct (defers n1 req); [reflexivity|].
  change (Peers n !! NodeId req) with (Peers n1 !! NodeId req).
  destruct (Peers n1 !! NodeId req) as [c|] eqn:E.
  - rewrite SendReleaseMSG_run. reflexivity.
  - reflexivity.
Qed.

(** The test of the handler, read on the protocol states. *)
Lemma defers_state (n : Node) (req : AccessRequest) :
  defers n req = true <->
  state n = HELD \/
  (state n = WANTED /\ isHigherPriority (CurrentRequest n) (Some req) = true).
Proof.
  unfold defers, state.
  destruct (InCS n), (WantCS n),
    (isHigherPriority (CurrentRequest n) (Some req)); cbn;
    split; intros H; try reflexivity; try discriminate; auto;
    destruct H as [H|[H1 H2]]; discriminate.
Qed.

Lemma RequestAccess_deferred_list (req : AccessRequest) (n : Node) :
  DeferredResponses (final (RequestAccess req n)) =
  if defers n req
  then DeferredResponses n ++ [NodeId req]
  else DeferredResponses n.
Proof.
  rewrite RequestAccess_run.
  destruct (defers n req); [reflexivity|].
  destruct (Peers n !! NodeId req); reflexivity.
Qed.

Lemma RequestAccess_always_false (req : AccessRequest) (n : Node) (resp : AccessResponse) :
  returned (RequestAccess req n) = Some resp -> Granted resp = false.
Proof.
  rewrite RequestAccess_run.
  destruct (defers n req); cbn.
  - intros [= <-]. reflexivity.
  - destruct (Peers n !! NodeId req); cbn; [intros [= <-]; reflexivity | discriminate].
Qed.

Lemma app_singleton_neq {A} (l : list A) (x : A) : l ++ [x] <> l.
Proof.
  intros H. apply (f_equal (@length A)) in H.
  rewrite length_app in H. cbn in H. lia.
Qed.

(** C6: the handler pushes the requester on the deferred list and answers
    [granted = false] exactly when the node is HELD, or WANTED with its own
    request ahead of the inbound one; in every other case the list is left
    as it was.  The condition reads nothing but the flags and
    [CurrentRequest]. *)
Theorem RequestAccess_defers_iff (req : AccessRequest) (n : Node) :
  let deferring :=
    state n = HELD \/
    (state n = WANTED /\ isHigherPriority (CurrentRequest n) (Some req) = true) in
  ((exists resp n' tr,
       RequestAccess req n = Done resp n' tr /\
       DeferredResponses n' = DeferredResponses n ++ [NodeId req] /\
       Granted resp = false)
   <-> deferring) /\
  (DeferredResponses (final (RequestAccess req n)) = DeferredResponses n
   <-> ~ deferring).
Proof.
  cbv zeta. rewrite <- defers_state.
  pose proof (RequestAccess_deferred_list req n) as L.
  split; split.
  - intros (resp & n' & tr & Hrun & Hd & _).
    rewrite Hrun in L. cbn in L. rewrite Hd in L.
    destruct (defers n req); [reflexivity|].
    exfalso. exact (app_singleton_neq _ _ L).
  - intros Hd. rewrite RequestAccess_run, Hd.
    eexists _, _, _. split; [reflexivity|]. split; reflexivity.
  - intros Hsame Hd. rewrite Hd, Hsame in L.
    symmetry in L. exact (app_singleton_neq _ _ L).
  - intros Hd. destruct (defers n req); [contradiction Hd; reflexivity | exact L].
Qed.

(** C1, as amended: when the node does not defer and the requester is one
    of its connected peers, the handler answers [granted = false] with the
    merged timestamp, and the grant is the [ReleaseAccess] call it makes on
    the requester, stamped with the same timestamp, as it returns. *)
Theorem RequestAccess_grants_by_release
    (req : AccessRequest) (n : Node) (c : MutexServiceClient) :
  state n <> HELD ->
  ~ (state n = WANTED /\ isHigherPriority (CurrentRequest n) (Some req) = true) ->
  Peers n !! NodeId req = Some c ->
  let ts := u64_incr (Z.max (LamportClock n) (LamportTimestamp req)) in
  RequestAccess req n =
  Done (mkAccessResponse false ts) (set_LamportClock ts n)
       [EvSendRelease (NodeId req) (mkReleaseRequest (ID n) ts)].
Proof.
  intros Hheld Hwanted Hc ts.
  assert (defers n req = false) as Hd.
  { apply not_true_iff_false. rewrite defers_state. tauto. }
  rewrite RequestAccess_run, Hd, Hc. reflexivity.
Qed.

(** C4, as amended: every deferred request appends its requester to the
    back of the deferred list, whether or not the identity is already
    there; an identity is listed once for each of its deferred requests. *)
Theorem RequestAccess_deferral_appends (req : AccessRequest) (n : Node) (id : string) :
  let n' := final (RequestAccess req n) in
  DeferredResponses n' =
    (if defers n req then DeferredResponses n ++ [NodeId req] else DeferredResponses n) /\
  count_occ string_dec (DeferredResponses n') id =
    (count_occ string_dec (DeferredResponses n) id +
     (if defers n req && bool_decide (NodeId req = id) then 1 else 0))%nat.
Proof.
  cbv zeta. rewrite RequestAccess_deferred_list. split; [reflexivity|].
  destruct (defers n req); cbn [andb].
  - rewrite count_occ_app. cbn [count_occ].
    destruct (string_dec (NodeId req) id) as [E|N].
    + rewrite bool_decide_eq_true_2 by exact E. reflexivity.
    + rewrite bool_decide_eq_false_2 by exact N. reflexivity.
  - lia.
Qed.

Lemma RequestAccess_grants_by_release_witness :
  RequestAccess (mkAccessRequest "node2" 3) node1_wanted =
  Done (mkAccessResponse false 6) (set_LamportClock 6 node1_wanted)
       [EvSendRelease "node2" (mkReleaseRequest "node1" 6)].
Proof.
  apply (RequestAccess_grants_by_release
           (mkAccessRequest "node2" 3) node1_wanted (answeringClient 0)).
  - vm_compute. discriminate.
  - vm_compute. intros [_ H]. discriminate H.
  - vm_compute. reflexivity.
Defined.

(** C1 fails as stated: node1, WANTED with its request at timestamp 5,
    receives node2's request at timestamp 3; it does not defer, and the
    response still carries [granted = false]. *)
Lemma RequestAccess_grant_flag_false :
  let req := mkAccessRequest "node2" 3 in
  state node1_wanted = WANTED /\
  CurrentRequest node1_wanted = Some (mkAccessRequest "node1" 5) /\
  isHigherPriority (CurrentRequest node1_wanted) (Some req) = false /\
  returned (RequestAccess req node1_wanted) = Some (mkAccessResponse false 6) /\
  ~ (exists resp, returned (RequestAccess req node1_wanted) = Some resp /\
                  Granted resp = true).
Proof.
  cbv zeta. repeat split; try (vm_compute; reflexivity).
  intros (resp & Hr & Hg).
  apply RequestAccess_always_false in Hr. congruence.
Qed.

(** C4 fails as stated: node1 holds the critical section and receives two
    requests of node2; node2 is then listed twice. *)
Lemma deferred_identity_listed_twice :
  let n1 := final (RequestAccess (mkAccessRequest "node2" 7) node1_held) in
  let n2 := final (RequestAccess (mkAccessRequest "node2" 9) n1) in
  state node1_held = HELD /\
  DeferredResponses n1 = ["node2"] /\
  DeferredResponses n2 = ["node2"; "node2"] /\
  ~ NoDup (DeferredResponses n2).
Proof.
  cbv zeta.
  assert (DeferredResponses
            (final (RequestAccess (mkAccessRequest "node2" 9)
               (final (RequestAccess (mkAccessRequest "node2" 7) node1_held))))
          = ["node2"; "node2"]) as E by (vm_compute; reflexivity).
  repeat split; try (vm_compute; reflexivity).
  rewrite E. intros H. apply NoDup_cons in H as [Hin _].
  apply Hin. constructor.
Qed.

(** C10: a nil request never has and never yields priority, so a node
    flagged WANTED whose [CurrentRequest] is nil defers exactly when it is
    HELD; the handler then answers unless it takes the grant path for a
    requester that has no client. *)
Theorem RequestAccess_absent_request
    (req : AccessRequest) (n : Node) (r : option AccessRequest) :
  WantCS n = true -> CurrentRequest n = None ->
  isHigherPriority None r = false /\
  isHigherPriority r None = false /\
  defers n req = InCS n /\
  DeferredResponses (final (RequestAccess req n)) =
    (if InCS n then DeferredResponses n ++ [NodeId req] else DeferredResponses n) /\
  returned (RequestAccess req n) =
    (let resp := mkAccessResponse false
                   (u64_incr (Z.max (LamportClock n) (LamportTimestamp req))) in
     if InCS n then Some resp
     else match Peers n !! NodeId req with
          | Some _ => Some resp
          | None => None
          end).
Proof.
  intros Hw Hc.
  assert (defers n req = InCS n) as Hd.
  { unfold defers. rewrite Hw, Hc. cbn. apply orb_false_r. }
  split; [apply isHigherPriority_nil_l|].
  split; [apply isHigherPriority_nil_r|].
  split; [exact Hd|].
  rewrite RequestAccess_deferred_list, RequestAccess_run, Hd.
  split; [reflexivity|].
  destruct (InCS n); [reflexivity|].
  destruct (Peers n !! NodeId req); reflexivity.
Qed.

(** node1 between [n.WantCS = true] and the assignment of
    [n.CurrentRequest] in its first acquisition. *)
Lemma RequestAccess_absent_request_witness :
  let n := set_WantCS true node1 in
  let req := mkAccessRequest "node2" 3 in
  defers n req = false /\
  DeferredResponses (final (RequestAccess req n)) = [] /\
  returned (RequestAccess req n) = Some (mkAccessResponse false 4).
Proof.
  cbv zeta.
  destruct (RequestAccess_absent_request
              (mkAccessRequest "node2" 3) (set_WantCS true node1)
              (Some (mkAccessRequest "node2" 3)))
    as (_ & _ & Hd & Hl & Hr); [reflexivity | reflexivity |].
  split; [exact Hd|]. split; [exact Hl|]. exact Hr.
Defined.

(** ** Outbound calls and the clock *)

Lemma requestPeer_run (id : string) (c : MutexServiceClient) (n : Node) :
  requestPeer id c n =
  match rpcRequestAccess c (wire (CurrentRequest n)) with
  | None => Done (Some false) n [EvSendRequest id (CurrentRequest n)]
  | Some resp =>
      Done None
           (set_LamportClock (u64_incr (Z.max (LamportClock n) (RespTimestamp resp))) n)
           [EvSendRequest id (CurrentRequest n)]
  end.
Proof.
  unfold requestPeer.
  unfold mbind at 1 2, Op_bind at 1 2, bind at 1 2, get, emit. cbn.
  destruct (rpcRequestAccess c (wire (CurrentRequest n))) as [resp|]; [|reflexivity].
  unfold mbind, Op_bind, bind. rewrite UpdateLamportClock_run. reflexivity.
Qed.

(** C5, as amended: the timestamp of a [RequestAccess] response is merged
    into the caller's clock, raised to it if larger and then incremented;
    the response of a [ReleaseAccess] call is dropped and [SendReleaseMSG]
    leaves the node as it was. *)
Theorem response_timestamp_merged
    (id : string) (c : MutexServiceClient) (ts : Z) (n : Node) (resp : AccessResponse) :
  rpcRequestAccess c (wire (CurrentRequest n)) = Some resp ->
  LamportClock (final (requestPeer id c n)) =
    u64_incr (Z.max (LamportClock n) (RespTimestamp resp)) /\
  final (SendReleaseMSG id (Some c) ts n) = n.
Proof.
  intros Hresp. rewrite requestPeer_run, Hresp, SendReleaseMSG_run.
  split; reflexivity.
Qed.

Lemma response_timestamp_merged_witness :
  LamportClock (final (requestPeer "node2" (answeringClient 9) node1_wanted)) = 10 /\
  final (SendReleaseMSG "node2" (Some (answeringClient 9)) 6 node1_wanted) = node1_wanted.
Proof.
  apply (response_timestamp_merged "node2" (answeringClient 9) 6 node1_wanted
           (mkAccessResponse false 9)).
  reflexivity.
Defined.

(** C5 fails as stated: node1, its clock at 5, sends a release to a peer
    whose [ReleaseAccess] response is stamped 9; the clock stays at 5
    where the merge would set it to 10. *)
Lemma release_response_not_merged :
  let c := answeringClient 9 in
  let req := mkReleaseRequest "node1" 6 in
  let o := SendReleaseMSG "node2" (Some c) 6 node1_wanted in
  rpcReleaseAccess c req = Some (mkReleaseResponse true 9) /\
  trace o = [EvSendRelease "node2" req] /\
  LamportClock node1_wanted = 5 /\
  LamportClock (final o) = 5 /\
  LamportClock (final o) <> u64_incr (Z.max (LamportClock node1_wanted) 9).
Proof.
  cbv zeta. rewrite SendReleaseMSG_run.
  repeat split; try (vm_compute; reflexivity).
  vm_compute. discriminate.
Qed.

(** ** Leaving the critical section *)

Lemma set_DeferredResponses_same (n : Node) :
  set_DeferredResponses (DeferredResponses n) n = n.
Proof. destruct n; reflexivity. Qed.

Lemma flushDeferred_run (ts : Z) (l : list string) :
  forall n : Node,
    DeferredResponses n = l ->
    (forall peerID, In peerID l -> is_Some (Peers n !! peerID)) ->
    flushDeferred (length l) ts n =
    Done tt (set_DeferredResponses [] n) (releaseEvents (ID n) ts l).
Proof.
  induction l as [|peerID rest IH]; intros n Hl Hpeers.
  - cbn. rewrite <- Hl, set_DeferredResponses_same. reflexivity.
  - destruct (Hpeers peerID (or_introl eq_refl)) as [c Hc].
    cbn [length flushDeferred].
    unfold mbind at 1 2, Op_bind at 1 2, bind at 1 2, get. rewrite Hl, Hc.
    unfold mbind at 1, Op_bind at 1, bind at 1. rewrite SendReleaseMSG_run.
    unfold mbind at 1, Op_bind at 1, bind at 1, modify.
    rewrite (IH (set_DeferredResponses rest n)).
    + reflexivity.
    + reflexivity.
    + intros p Hp. apply (Hpeers p). now right.
Qed.

Lemma releasesSent_releaseEvents (id : string) (ts : Z) (l : list string) :
  releasesSent (releaseEvents id ts l) =
  map (fun peerID => (peerID, mkReleaseRequest id ts)) l.
Proof. induction l as [|p l IH]; cbn; [reflexivity | now rewrite <- IH]. Qed.

Lemma count_release_messages (self : string) (ts : Z) (id : string) (l : list string) :
  length (filter (fun m => m.1 = id)
            (map (fun peerID => (peerID, mkReleaseRequest self ts)) l)) =
  count_occ string_dec l id.
Proof.
  induction l as [|p l IH]; [reflexivity|].
  cbn [map count_occ]. rewrite filter_cons. cbn [fst].
  destruct (string_dec p id) as [E|N].
  - rewrite decide_True by exact E. cbn [length]. now rewrite IH.
  - rewrite decide_False by exact N. exact IH.
Qed.

(** C9, as amended: the release step ticks the clock once and, when every
    listed identity is a connected peer, sends one release message stamped
    with that tick per entry of the deferred list, in list order, and
    leaves the list empty; an identity so receives as many messages as it
    has entries, exactly one when it is listed once. *)
Theorem leaveCS_flushes (n : Node) (id : string) :
  (forall peerID, In peerID (DeferredResponses n) -> is_Some (Peers n !! peerID)) ->
  let ts := u64_incr (LamportClock n) in
  let o := leaveCS n in
  returned o = Some tt /\
  LamportClock (final o) = ts /\
  state (final o) = RELEASED /\
  DeferredResponses (final o) = [] /\
  trace o = EvLeaveCS ts :: releaseEvents (ID n) ts (DeferredResponses n) /\
  releasesSent (trace o) =
    map (fun peerID => (peerID, mkReleaseRequest (ID n) ts)) (DeferredResponses n) /\
  length (filter (fun m => m.1 = id) (releasesSent (trace o))) =
    count_occ string_dec (DeferredResponses n) id.
Proof.
  intros Hpeers ts o.
  assert (o = Done tt
                (set_DeferredResponses []
                   (set_LamportClock ts (set_WantCS false (set_InCS false n))))
                (EvLeaveCS ts :: releaseEvents (ID n) ts (DeferredResponses n))) as Ho.
  { subst o. unfold leaveCS.
    unfold mbind at 1 2 3 4 5, Op_bind at 1 2 3 4 5, bind at 1 2 3 4 5, modify, emit, get.
    rewrite GetLamportClock_run. cbn [LamportClock set_WantCS set_InCS].
    fold ts.
    set (n1 := set_LamportClock ts (set_WantCS false (set_InCS false n))).
    change (DeferredResponses n1) with (DeferredResponses n).
    rewrite (flushDeferred_run ts (DeferredResponses n) n1 eq_refl Hpeers).
    reflexivity. }
  rewrite Ho. cbn [returned final trace].
  change (releasesSent (EvLeaveCS ts :: ?tr)) with (releasesSent tr).
  rewrite releasesSent_releaseEvents.
  repeat split. apply count_release_messages.
Qed.

Lemma leaveCS_flushes_witness :
  let n := final (RequestAccess (mkAccessRequest "node3" 8)
             (final (RequestAccess (mkAccessRequest "node2" 7) node1_held))) in
  let o := leaveCS n in
  returned o = Some tt /\
  LamportClock (final o) = 10 /\
  state (final o) = RELEASED /\
  DeferredResponses (final o) = [] /\
  trace o = [EvLeaveCS 10;
             EvSendRelease "node2" (mkReleaseRequest "node1" 10);
             EvSendRelease "node3" (mkReleaseRequest "node1" 10)] /\
  releasesSent (trace o) =
    [("node2", mkReleaseRequest "node1" 10); ("node3", mkReleaseRequest "node1" 10)] /\
  length (filter (fun m => m.1 = "node2") (releasesSent (trace o))) = 1%nat.
Proof.
  apply (leaveCS_flushes
           (final (RequestAccess (mkAccessRequest "node3" 8)
              (final (RequestAccess (mkAccessRequest "node2" 7) node1_held))))
           "node2").
  intros peerID H. vm_compute in H.
  destruct H as [<-|[<-|[]]]; exists (answeringClient 0); vm_compute; reflexivity.
Defined.

(** C9 fails as stated: node1 holds the critical section and has deferred
    two requests of node2; on release node2 is sent two messages. *)
Lemma release_sent_twice :
  let n := final (RequestAccess (mkAccessRequest "node2" 9)
             (final (RequestAccess (mkAccessRequest "node2" 7) node1_held))) in
  let o := leaveCS n in
  DeferredResponses n = ["node2"; "node2"] /\
  releasesSent (trace o) =
    [("node2", mkReleaseRequest "node1" 11); ("node2", mkReleaseRequest "node1" 11)] /\
  length (filter (fun m => m.1 = "node2") (releasesSent (trace o))) <> 1%nat.
Proof.
  cbv zeta. split; [vm_compute; reflexivity|].
  split; [vm_compute; reflexivity|].
  vm_compute. discriminate.
Qed.

(** ** What the operations leave alone *)

#[global] Instance keeps_preorder : PreOrder keeps.
Proof.
  split.
  - intros n. repeat split.
  - intros a b c (H1 & H2 & H3 & H4) (K1 & K2 & K3 & K4).
    repeat split; congruence.
Qed.

Lemma final_bind {A B} (m : Op A) (k : A -> Op B) (n : Node) :
  final (bind m k n) =
  match m n with
  | Done a n1 _ => final (k a n1)
  | Panicked n1 _ | Blocked n1 _ => n1
  end.
Proof.
  unfold bind. destruct (m n) as [a n1 tr1|n1 tr1|n1 tr1]; [|reflexivity..].
  destruct (k a n1); reflexivity.
Qed.

Lemma final_modify_bind {B} (f : Node -> Node) (k : unit -> Op B) (n : Node) :
  final (bind (modify f) k n) = final (k tt (f n)).
Proof. rewrite final_bind. reflexivity. Qed.

Lemma final_emit_bind {B} (e : Event) (k : unit -> Op B) (n : Node) :
  final (bind (emit e) k n) = final (k tt n).
Proof. rewrite final_bind. reflexivity. Qed.

Lemma final_get_bind {A B} (f : Node -> A) (k : A -> Op B) (n : Node) :
  final (bind (get f) k n) = final (k (f n) n).
Proof. rewrite final_bind. reflexivity. Qed.

Lemma preserving_bind {A B} (m : Op A) (k : A -> Op B) :
  Preserving m -> (forall a, Preserving (k a)) -> Preserving (mbind k m).
Proof.
  intros Hm Hk n. unfold mbind, Op_bind. rewrite final_bind.
  specialize (Hm n). destruct (m n) as [a n1 tr1|n1 tr1|n1 tr1]; cbn in Hm;
    [|exact Hm..].
  etransitivity; [exact Hm | apply Hk].
Qed.

Lemma preserving_ret {A} (a : A) : Preserving (mret a).
Proof. intros n. reflexivity. Qed.

Lemma preserving_get {A} (f : Node -> A) : Preserving (get f).
Proof. intros n. reflexivity. Qed.

Lemma preserving_emit (e : Event) : Preserving (emit e).
Proof. intros n. reflexivity. Qed.

Lemma preserving_panic {A} : Preserving (@panic A).
Proof. intros n. reflexivity. Qed.

Lemma preserving_block {A} : Preserving (@block A).
Proof. intros n. reflexivity. Qed.

Lemma preserving_set_LamportClock (c : Z) : Preserving (modify (set_LamportClock c)).
Proof. intros n. repeat split. Qed.

Lemma preserving_set_Release (ch : list bool) : Preserving (modify (set_Release ch)).
Proof. intros n. repeat split. Qed.

Lemma preserving_set_DeferredResponses (l : list string) :
  Preserving (modify (set_DeferredResponses l)).
Proof. intros n. repeat split. Qed.

Create HintDb preserve.

#[global] Hint Resolve preserving_ret preserving_get preserving_emit
  preserving_panic preserving_block preserving_set_LamportClock
  preserving_set_Release preserving_set_DeferredResponses : preserve.

(** Walk down a computation, one bind or one branch at a time. *)
Ltac preserve :=
  repeat first
    [ apply preserving_bind; [|intros ?]
    | progress auto with preserve nocore
    | match goal with
      | |- Preserving (match ?x with _ => _ end) => destruct x
      | |- Preserving (if ?b then _ else _) => destruct b
      end ].

Lemma preserving_UpdateLamportClock (m : Z) : Preserving (UpdateLamportClock m).
Proof. unfold UpdateLamportClock. preserve. Qed.

Lemma preserving_GetLamportClock : Preserving GetLamportClock.
Proof. unfold GetLamportClock. preserve. Qed.

#[global] Hint Resolve preserving_UpdateLamportClock preserving_GetLamportClock : preserve.

Lemma preserving_SendReleaseMSG (peerID : string) (c : option MutexServiceClient) (ts : Z) :
  Preserving (SendReleaseMSG peerID c ts).
Proof. unfold SendReleaseMSG. preserve. Qed.

#[global] Hint Resolve preserving_SendReleaseMSG : preserve.

Lemma preserving_RequestAccess (req : AccessRequest) : Preserving (RequestAccess req).
Proof. unfold RequestAccess. preserve. Qed.

Lemma preserving_Release_send (v : bool) : Preserving (Release_send v).
Proof. unfold Release_send. preserve. Qed.

Lemma preserving_Release_recv : Preserving Release_recv.
Proof. unfold Release_recv. preserve. Qed.

#[global] Hint Resolve preserving_RequestAccess preserving_Release_send
  preserving_Release_recv : preserve.

Lemma preserving_ReleaseAccess (req : ReleaseRequest) : Preserving (ReleaseAccess req).
Proof. unfold ReleaseAccess. preserve. Qed.

#[global] Hint Resolve preserving_ReleaseAccess : preserve.

Lemma preserving_requestPeer (id : string) (c : MutexServiceClient) :
  Preserving (requestPeer id c).
Proof. unfold requestPeer. preserve. Qed.

#[global] Hint Resolve preserving_requestPeer : preserve.

Lemma preserving_requestPeers (ps : list (string * MutexServiceClient)) :
  Preserving (requestPeers ps).
Proof.
  induction ps as [|[id c] ps IH]; cbn [requestPeers]; preserve.
Qed.

Lemma preserving_awaitReleases (waiting : nat) :
  forall inbound, Preserving (awaitReleases waiting inbound).
Proof.
  induction waiting as [|w IH]; intros inbound; cbn [awaitReleases]; preserve.
Qed.

#[global] Hint Resolve preserving_requestPeers preserving_awaitReleases : preserve.

Lemma preserving_collectResponses (inbound : list ReleaseRequest) :
  Preserving (collectResponses inbound).
Proof. unfold collectResponses. preserve. Qed.

Lemma preserving_flushDeferred (rounds : nat) (ts : Z) :
  Preserving (flushDeferred rounds ts).
Proof.
  induction rounds as [|r IH]; cbn [flushDeferred]; preserve.
Qed.

#[global] Hint Resolve preserving_collectResponses preserving_flushDeferred : preserve.

(** ** The current request across operations *)

Lemma keeps_state (n n' : Node) : keeps n n' -> state n' = state n.
Proof. intros (_ & Hw & Hi & _). unfold state. now rewrite Hw, Hi. Qed.

Lemma stampRequest_run (n : Node) :
  stampRequest n =
  Done tt
       (set_ResponseCount 0
          (set_CurrentRequest (Some (mkAccessRequest (ID n) (u64_incr (LamportClock n))))
             (set_LamportClock (u64_incr (LamportClock n)) (set_WantCS true n))))
       [].
Proof. reflexivity. Qed.

Lemma leaveCS_final (n : Node) :
  let n' := final (leaveCS n) in
  ID n' = ID n /\ WantCS n' = false /\ InCS n' = false /\
  CurrentRequest n' = CurrentRequest n.
Proof.
  cbv zeta. remember (final (leaveCS n)) as n' eqn:E.
  unfold leaveCS in E.
  unfold mbind at 1, Op_bind at 1 in E. rewrite final_modify_bind in E.
  unfold mbind at 1, Op_bind at 1 in E. rewrite final_modify_bind in E.
  set (n1 := set_WantCS false (set_InCS false n)) in E.
  assert (Preserving (releaseTimestamp ← GetLamportClock;
                      emit (EvLeaveCS releaseTimestamp);;
                      l ← get DeferredResponses;
                      flushDeferred (length l) releaseTimestamp)) as P by preserve.
  destruct (P n1) as (Hid & Hw & Hi & Hc). rewrite <- E in Hid, Hw, Hi, Hc.
  split; [exact Hid|]. split; [exact Hw|]. split; [exact Hi | exact Hc].
Qed.

Lemma ExecuteCriticalSection_final (n : Node) :
  let n' := final (ExecuteCriticalSection n) in
  ID n' = ID n /\ WantCS n' = false /\ InCS n' = false /\
  CurrentRequest n' = CurrentRequest n.
Proof.
  cbv zeta.
  assert (final (ExecuteCriticalSection n) = final (leaveCS (set_InCS true n))) as ->.
  { unfold ExecuteCriticalSection, enterCS.
    unfold mbind at 1, Op_bind at 1. rewrite final_bind. reflexivity. }
  apply (leaveCS_final (set_InCS true n)).
Qed.

Lemma ExecuteCriticalSection_released (n : Node) :
  state (final (ExecuteCriticalSection n)) = RELEASED.
Proof.
  destruct (ExecuteCriticalSection_final n) as (_ & Hw & Hi & _).
  unfold state. now rewrite Hw, Hi.
Qed.

(** C3, on the failing input: node1 starts RELEASED without a current
    request, acquires the critical section with the releases of node2 and
    node3 and leaves it.  It is RELEASED again and its request of
    timestamp 1 is still in [CurrentRequest].  In its next acquisition,
    after [n.WantCS = true] and before the request is stamped, node2's
    request of timestamp 5 arrives: the handler reads the request of
    timestamp 1, defers node2 and sends it nothing, where with the request
    cleared it sends node2 its release; node1 then stamps its request with
    8, which has no priority over node2's, and node2, WANTED at 5, defers
    that request in turn. *)
Theorem current_request_stale_after_release :
  let inbound := [mkReleaseRequest "node2" 3; mkReleaseRequest "node3" 4] in
  let o := RequestCriticalSection inbound node1 in
  let window := set_WantCS true (final o) in
  let req := mkAccessRequest "node2" 5 in
  let h := RequestAccess req window in
  let cleared := RequestAccess req (set_CurrentRequest None window) in
  let stamped := final (stampRequest (final h)) in
  (state node1 = RELEASED /\ CurrentRequest node1 = None) /\
  returned o = Some tt /\
  In EvEnterCS (trace o) /\
  state (final o) = RELEASED /\
  CurrentRequest (final o) = Some (mkAccessRequest "node1" 1) /\
  ~ (is_Some (CurrentRequest (final o)) <-> state (final o) <> RELEASED) /\
  (DeferredResponses (final h) = ["node2"] /\ releasesSent (trace h) = []) /\
  (DeferredResponses (final cleared) = [] /\
   releasesSent (trace cleared) = [("node2", mkReleaseRequest "node1" 7)]) /\
  (CurrentRequest stamped = Some (mkAccessRequest "node1" 8) /\
   isHigherPriority (CurrentRequest stamped) (Some req) = false) /\
  (CurrentRequest node2_wanted = Some req /\
   DeferredResponses (final (RequestAccess (mkAccessRequest "node1" 8) node2_wanted))
   = ["node1"]).
Proof.
  cbv zeta.
  assert (state (final (RequestCriticalSection
                          [mkReleaseRequest "node2" 3; mkReleaseRequest "node3" 4] node1))
          = RELEASED) as Hs by (vm_compute; reflexivity).
  assert (CurrentRequest (final (RequestCriticalSection
                          [mkReleaseRequest "node2" 3; mkReleaseRequest "node3" 4] node1))
          = Some (mkAccessRequest "node1" 1)) as Hc by (vm_compute; reflexivity).
  split; [split; vm_compute; reflexivity|].
  split; [vm_compute; reflexivity|].
  split; [vm_compute; tauto|].
  split; [exact Hs|]. split; [exact Hc|].
  split.
  { rewrite Hs, Hc. intros [H _]. apply H; [eexists; reflexivity | reflexivity]. }
  repeat split; vm_compute; reflexivity.
Qed.

(** ** Acquisition against an unreachable peer *)

(** C2, on the failing input: node1 has the single peer node2, whose
    request fails with a transport error.  The loop collects the one value
    [false], [granted] is 0 of 1 needed, and the node enters and leaves the
    critical section all the same. *)
Theorem acquisition_enters_without_grant :
  let o := RequestCriticalSection [] node1_cut_off in
  rpcRequestAccess unreachableClient (mkAccessRequest "node1" 1) = None /\
  returned (collectResponses [] (final (stampRequest node1_cut_off))) = Some (0, 1) /\
  returned o = Some tt /\
  trace o = [EvSendRequest "node2" (Some (mkAccessRequest "node1" 1));
             EvEnterCS; EvLeaveCS 2].
Proof.
  cbv zeta. repeat split; vm_compute; reflexivity.
Qed.

(** ** Running a bind *)

Lemma bind_Done {A B} (m : Op A) (k : A -> Op B) (n n1 : Node) (a : A) (tr1 : list Event) :
  m n = Done a n1 tr1 -> bind m k n = prepend tr1 (k a n1).
Proof. intros H. unfold bind. rewrite H. destruct (k a n1); reflexivity. Qed.

Lemma bind_Blocked {A B} (m : Op A) (k : A -> Op B) (n n1 : Node) (tr1 : list Event) :
  m n = Blocked n1 tr1 -> bind m k n = Blocked n1 tr1.
Proof. intros H. unfold bind. now rewrite H. Qed.

Lemma bind_Panicked {A B} (m : Op A) (k : A -> Op B) (n n1 : Node) (tr1 : list Event) :
  m n = Panicked n1 tr1 -> bind m k n = Panicked n1 tr1.
Proof. intros H. unfold bind. now rewrite H. Qed.

Lemma trace_prepend {A} (tr : list Event) (o : Outcome A) :
  trace (prepend tr o) = tr ++ trace o.
Proof. destruct o; reflexivity. Qed.

Lemma final_prepend {A} (tr : list Event) (o : Outcome A) :
  final (prepend tr o) = final o.
Proof. destruct o; reflexivity. Qed.

Lemma returned_prepend {A} (tr : list Event) (o : Outcome A) :
  returned (prepend tr o) = returned o.
Proof. destruct o; reflexivity. Qed.

Lemma prepend_nil {A} (o : Outcome A) : prepend [] o = o.
Proof. destruct o; reflexivity. Qed.

Lemma set_LamportClock_same (n : Node) : set_LamportClock (LamportClock n) n = n.
Proof. destruct n; reflexivity. Qed.

(** ** The fan-out in closed form *)

Lemma requestPeers_run (ps : list (string * MutexServiceClient)) :
  forall n : Node,
    requestPeers ps n =
    Done (map (peerResult (CurrentRequest n)) ps)
         (set_LamportClock
            (foldl (mergeResponse (CurrentRequest n)) (LamportClock n) ps) n)
         (map (fun p => EvSendRequest p.1 (CurrentRequest n)) ps).
Proof.
  induction ps as [|[id c] ps IH]; intros n.
  - cbn. now rewrite set_LamportClock_same.
  - cbn [requestPeers]. unfold mbind, Op_bind, bind, mret, Op_ret, ret.
    rewrite requestPeer_run. cbn [foldl map fst snd].
    unfold peerResult at 1, mergeResponse at 2. cbn [fst snd].
    destruct (rpcRequestAccess c (wire (CurrentRequest n))) as [resp|];
      rewrite IH; cbn [app]; rewrite app_nil_r; reflexivity.
Qed.

Lemma bind_get {A B} (f : Node -> A) (k : A -> Op B) (n : Node) :
  bind (get f) k n = k (f n) n.
Proof. unfold bind, get. destruct (k (f n) n); reflexivity. Qed.

Lemma bind_modify {B} (f : Node -> Node) (k : unit -> Op B) (n : Node) :
  bind (modify f) k n = k tt (f n).
Proof. unfold bind, modify. destruct (k tt (f n)); reflexivity. Qed.

Lemma bind_emit {B} (e : Event) (k : unit -> Op B) (n : Node) :
  bind (emit e) k n = prepend [e] (k tt n).
Proof. unfold bind, emit. destruct (k tt n); reflexivity. Qed.

Lemma waiting_count (cur : option AccessRequest) (ps : list (string * MutexServiceClient)) :
  length (filter (fun o : option bool => o = None) (map (peerResult cur) ps)) =
  length (filter (fun p : string * MutexServiceClient =>
                    is_Some (rpcRequestAccess p.2 (wire cur))) ps).
Proof.
  induction ps as [|p ps IH]; [reflexivity|].
  cbn [map]. rewrite !filter_cons.
  destruct (rpcRequestAccess p.2 (wire cur)) as [resp|] eqn:E.
  - rewrite decide_True by (unfold peerResult; rewrite ?E; reflexivity).
    rewrite decide_True by (rewrite ?E; eexists; reflexivity).
    cbn [length]. now rewrite IH.
  - rewrite decide_False by (unfold peerResult; rewrite ?E; discriminate).
    rewrite decide_False by (rewrite ?E; intros [x Hx]; discriminate Hx).
    exact IH.
Qed.

(** ** The release handler and the waiting goroutines *)

Lemma Release_send_run (v : bool) (n : Node) :
  Release_send v n =
  if (length (Release n) <? Release_cap)%nat
  then Done tt (set_Release (Release n ++ [v]) n) []
  else Blocked n [].
Proof.
  unfold Release_send. unfold mbind, Op_bind. rewrite bind_get.
  destruct (length (Release n) <? Release_cap)%nat; reflexivity.
Qed.

Lemma ReleaseAccess_run (req : ReleaseRequest) (n : Node) :
  let ts := u64_incr (Z.max (LamportClock n) (RelTimestamp req)) in
  let n1 := set_LamportClock ts n in
  ReleaseAccess req n =
  if (length (Release n) <? Release_cap)%nat
  then Done (mkReleaseResponse true ts) (set_Release (Release n ++ [true]) n1) []
  else Blocked n1 [].
Proof.
  intros ts n1. unfold ReleaseAccess.
  unfold mbind at 1, Op_bind at 1.
  rewrite (bind_Done _ _ _ _ _ _ (UpdateLamportClock_run (RelTimestamp req) n)).
  fold ts. fold n1. rewrite prepend_nil.
  unfold mbind, Op_bind.
  pose proof (Release_send_run true n1) as Hs.
  change (Release n1) with (Release n) in Hs.
  destruct (length (Release n) <? Release_cap)%nat.
  - rewrite (bind_Done _ _ _ _ _ _ Hs). reflexivity.
  - rewrite (bind_Blocked _ _ _ _ _ Hs). reflexivity.
Qed.

Lemma Release_recv_run (n : Node) :
  Release_recv n =
  match Release n with
  | v :: rest => Done v (set_Release rest n) []
  | [] => Blocked n []
  end.
Proof.
  unfold Release_recv. unfold mbind, Op_bind. rewrite bind_get.
  destruct (Release n); reflexivity.
Qed.

Lemma awaitReleases_step_block (w : nat) (n : Node) :
  Release n = [] -> awaitReleases (S w) [] n = Blocked n [].
Proof.
  intros Hch. cbn [awaitReleases]. unfold mbind, Op_bind.
  rewrite bind_get, Hch. reflexivity.
Qed.

Lemma awaitReleases_step_buffer (w : nat) (inbound : list ReleaseRequest)
    (n : Node) (v : bool) (rest : list bool) :
  Release n = v :: rest ->
  awaitReleases (S w) inbound n =
  bind (awaitReleases w inbound) (fun vs => ret (v :: vs)) (set_Release rest n).
Proof.
  intros Hch. cbn [awaitReleases]. unfold mbind, Op_bind, mret, Op_ret.
  rewrite bind_get, Hch.
  assert (Release_recv n = Done v (set_Release rest n) []) as Hv
      by (rewrite Release_recv_run, Hch; reflexivity).
  rewrite (bind_Done _ _ _ _ _ _ Hv), prepend_nil. reflexivity.
Qed.

Lemma awaitReleases_step_inbound (w : nat) (r : ReleaseRequest)
    (inbound : list ReleaseRequest) (n : Node) :
  Release n = [] ->
  awaitReleases (S w) (r :: inbound) n =
  bind (awaitReleases w inbound) (fun vs => ret (true :: vs))
       (set_Release []
          (set_LamportClock (u64_incr (Z.max (LamportClock n) (RelTimestamp r))) n)).
Proof.
  intros Hch. cbn [awaitReleases]. unfold mbind, Op_bind, mret, Op_ret.
  rewrite bind_get, Hch.
  pose proof (ReleaseAccess_run r n) as Hr. cbv zeta in Hr.
  rewrite Hch in Hr. cbn [length Nat.ltb Nat.leb Release_cap app] in Hr.
  rewrite (bind_Done _ _ _ _ _ _ Hr), prepend_nil.
  set (n1 := set_Release [true] _).
  assert (Release_recv n1 = Done true (set_Release [] n1) []) as Hv
      by (rewrite Release_recv_run; reflexivity).
  rewrite (bind_Done _ _ _ _ _ _ Hv), prepend_nil. reflexivity.
Qed.

(** With [waiting] goroutines and the buffer and the inbound releases as
    the only sources, all of them receive when there are enough values and
    one of them blocks otherwise. *)
Lemma awaitReleases_outcome (waiting : nat) :
  forall (inbound : list ReleaseRequest) (n : Node),
    ((waiting <= length (Release n) + length inbound)%nat ->
     exists vs n', awaitReleases waiting inbound n = Done vs n' [] /\
                   length vs = waiting) /\
    ((length (Release n) + length inbound < waiting)%nat ->
     exists n', awaitReleases waiting inbound n = Blocked n' []).
Proof.
  induction waiting as [|w IH]; intros inbound n.
  - split; [intros _; exists [], n; split; reflexivity | intros H; lia].
  - destruct (Release n) as [|v rest] eqn:Hch.
    + destruct inbound as [|r inbound'].
      * rewrite (awaitReleases_step_block w n Hch).
        split; [cbn; lia | intros _; exists n; reflexivity].
      * rewrite (awaitReleases_step_inbound w r inbound' n Hch).
        set (n1 := set_Release [] _).
        destruct (IH inbound' n1) as [Hdone Hblock].
        change (Release n1) with (@nil bool) in *.
        cbn [length] in *. split; intros Hle.
        -- destruct Hdone as (vs & n' & Hrun & Hlen); [lia|].
           exists (true :: vs), n'.
           rewrite (bind_Done _ _ _ _ _ _ Hrun). split; [reflexivity | cbn; lia].
        -- destruct Hblock as (n' & Hrun); [lia|].
           exists n'. now rewrite (bind_Blocked _ _ _ _ _ Hrun).
    + rewrite (awaitReleases_step_buffer w inbound n v rest Hch).
      destruct (IH inbound (set_Release rest n)) as [Hdone Hblock].
      change (Release (set_Release rest n)) with rest in *.
      cbn [length]. split; intros Hle.
      * destruct Hdone as (vs & n' & Hrun & Hlen); [lia|].
        exists (v :: vs), n'.
        rewrite (bind_Done _ _ _ _ _ _ Hrun). split; [reflexivity | cbn; lia].
      * destruct Hblock as (n' & Hrun); [lia|].
        exists n'. now rewrite (bind_Blocked _ _ _ _ _ Hrun).
Qed.

Lemma collectResponses_outcome (inbound : list ReleaseRequest) (n : Node) :
  let ps := map_to_list (Peers n) in
  let reqEvs := map (fun p : string * MutexServiceClient =>
                       EvSendRequest p.1 (CurrentRequest n)) ps in
  let k := length (filter (fun p : string * MutexServiceClient =>
                             is_Some (rpcRequestAccess p.2 (wire (CurrentRequest n)))) ps) in
  ((k <= length (Release n) + length inbound)%nat ->
   exists counts n', collectResponses inbound n = Done counts n' reqEvs /\
                     counts.2 = Z.of_nat (length ps)) /\
  ((length (Release n) + length inbound < k)%nat ->
   exists n', collectResponses inbound n = Blocked n' reqEvs).
Proof.
  intros ps reqEvs k.
  set (n2 := set_LamportClock
               (foldl (mergeResponse (CurrentRequest n)) (LamportClock n) ps) n).
  assert (collectResponses inbound n =
          prepend reqEvs
            (bind (awaitReleases k inbound)
               (fun vs => ret (tally (responses (map (peerResult (CurrentRequest n)) ps) vs),
                               Z.of_nat (length ps))) n2)) as E.
  { unfold collectResponses.
    unfold mbind at 1, Op_bind at 1. rewrite bind_get. fold ps.
    unfold mbind at 1, Op_bind at 1.
    rewrite (bind_Done _ _ _ _ _ _ (requestPeers_run ps n)). fold reqEvs.
    rewrite waiting_count. reflexivity. }
  rewrite E.
  destruct (awaitReleases_outcome k inbound n2) as [Hdone Hblock].
  change (Release n2) with (Release n) in *.
  split; intros Hk.
  - destruct (Hdone Hk) as (vs & n' & Hrun & _).
    rewrite (bind_Done _ _ _ _ _ _ Hrun). cbn.
    eexists _, n'. rewrite app_nil_r. split; reflexivity.
  - destruct (Hblock Hk) as (n' & Hrun).
    rewrite (bind_Blocked _ _ _ _ _ Hrun). cbn.
    exists n'. now rewrite app_nil_r.
Qed.

Lemma ExecuteCriticalSection_trace (n : Node) :
  trace (ExecuteCriticalSection n) = EvEnterCS :: trace (leaveCS (set_InCS true n)).
Proof.
  unfold ExecuteCriticalSection. unfold mbind, Op_bind.
  assert (enterCS n = Done tt (set_InCS true n) [EvEnterCS]) as He by reflexivity.
  rewrite (bind_Done _ _ _ _ _ _ He), trace_prepend. reflexivity.
Qed.

Lemma state_RELEASED (n : Node) :
  state n = RELEASED <-> InCS n = false /\ WantCS n = false.
Proof.
  unfold state. destruct (InCS n), (WantCS n); split;
    try discriminate; try tauto; intros [? ?]; discriminate.
Qed.

(** [RequestCriticalSection] on a RELEASED node, up to the call of
    [ExecuteCriticalSection]. *)
Lemma RequestCriticalSection_released (inbound : list ReleaseRequest) (n : Node) :
  state n = RELEASED ->
  RequestCriticalSection inbound n =
  bind (collectResponses inbound) (fun _ => ExecuteCriticalSection)
       (final (stampRequest n)).
Proof.
  intros Hs. apply state_RELEASED in Hs as [Hi Hw].
  unfold RequestCriticalSection. unfold mbind, Op_bind.
  rewrite !bind_get, Hi, Hw. cbn [orb].
  rewrite (bind_Done _ _ _ _ _ _ (stampRequest_run n)), prepend_nil.
  reflexivity.
Qed.

(** ** Events an operation never emits *)

Lemma trace_bind {A B} (m : Op A) (k : A -> Op B) (n : Node) :
  trace (bind m k n) =
  match m n with
  | Done a n1 tr1 => tr1 ++ trace (k a n1)
  | Panicked _ tr1 | Blocked _ tr1 => tr1
  end.
Proof.
  unfold bind. destruct (m n) as [a n1 tr1|n1 tr1|n1 tr1]; [|reflexivity..].
  destruct (k a n1); reflexivity.
Qed.

Lemma silent_bind (P : Event -> Prop) {A B} (m : Op A) (k : A -> Op B) :
  Silent P m -> (forall a, Silent P (k a)) -> Silent P (mbind k m).
Proof.
  intros Hm Hk n. unfold mbind, Op_bind. rewrite trace_bind.
  specialize (Hm n). destruct (m n) as [a n1 tr1|n1 tr1|n1 tr1]; cbn in Hm;
    [|exact Hm..].
  apply Forall_app. split; [exact Hm | apply Hk].
Qed.

Lemma silent_ret (P : Event -> Prop) {A} (a : A) : Silent P (mret a).
Proof. intros n. constructor. Qed.

Lemma silent_get (P : Event -> Prop) {A} (f : Node -> A) : Silent P (get f).
Proof. intros n. constructor. Qed.

Lemma silent_modify (P : Event -> Prop) (f : Node -> Node) : Silent P (modify f).
Proof. intros n. constructor. Qed.

Lemma silent_panic (P : Event -> Prop) {A} : Silent P (@panic A).
Proof. intros n. constructor. Qed.

Lemma silent_block (P : Event -> Prop) {A} : Silent P (@block A).
Proof. intros n. constructor. Qed.

Lemma silent_emit (P : Event -> Prop) (e : Event) : ~ P e -> Silent P (emit e).
Proof. intros H n. constructor; [exact H | constructor]. Qed.

Create HintDb silent.

#[global] Hint Resolve silent_ret silent_get silent_modify silent_panic
  silent_block : silent.

Ltac silent :=
  repeat first
    [ apply silent_bind; [|intros ?]
    | apply silent_emit; cbn; tauto
    | progress auto with silent nocore
    | match goal with
      | |- Silent _ (match ?x with _ => _ end) => destruct x
      | |- Silent _ (if ?b then _ else _) => destruct b
      end ].

Lemma silent_GetLamportClock (P : Event -> Prop) : Silent P GetLamportClock.
Proof. unfold GetLamportClock. silent. Qed.

Lemma silent_UpdateLamportClock (P : Event -> Prop) (m : Z) :
  Silent P (UpdateLamportClock m).
Proof. unfold UpdateLamportClock. silent. Qed.

#[global] Hint Resolve silent_GetLamportClock silent_UpdateLamportClock : silent.

Lemma silent_SendReleaseMSG (peerID : string) (c : option MutexServiceClient) (ts : Z) :
  Silent isRequestEvent (SendReleaseMSG peerID c ts).
Proof. unfold SendReleaseMSG. silent. Qed.

#[global] Hint Resolve silent_SendReleaseMSG : silent.

Lemma silent_flushDeferred (rounds : nat) (ts : Z) :
  Silent isRequestEvent (flushDeferred rounds ts).
Proof. induction rounds as [|r IH]; cbn [flushDeferred]; silent. Qed.

#[global] Hint Resolve silent_flushDeferred : silent.

Lemma silent_ExecuteCriticalSection : Silent isRequestEvent ExecuteCriticalSection.
Proof. unfold ExecuteCriticalSection, enterCS, leaveCS. silent. Qed.

Lemma silent_RequestAccess (req : AccessRequest) :
  Silent isRequestEvent (RequestAccess req).
Proof. unfold RequestAccess. silent. Qed.

Lemma requestsSent_app (tr1 tr2 : list Event) :
  requestsSent (tr1 ++ tr2) = requestsSent tr1 ++ requestsSent tr2.
Proof. unfold requestsSent. apply omap_app. Qed.

Lemma requestsSent_silent (tr : list Event) :
  Forall (fun e => ~ isRequestEvent e) tr -> requestsSent tr = [].
Proof.
  induction 1 as [|e tr He _ IH]; [reflexivity|].
  destruct e; cbn in *; try exact IH. contradiction He. exact I.
Qed.

Lemma requestsSent_requests (cur : option AccessRequest)
    (ps : list (string * MutexServiceClient)) :
  requestsSent (map (fun p : string * MutexServiceClient => EvSendRequest p.1 cur) ps) =
  map (fun p : string * MutexServiceClient => (p.1, cur)) ps.
Proof. induction ps as [|p ps IH]; cbn; [reflexivity | now rewrite <- IH]. Qed.

Lemma requests_not_enter (cur : option AccessRequest)
    (ps : list (string * MutexServiceClient)) :
  ~ In EvEnterCS (map (fun p : string * MutexServiceClient => EvSendRequest p.1 cur) ps).
Proof.
  intros H. apply in_map_iff in H as (p & Hp & _). discriminate Hp.
Qed.

(** ** The acquisition as a whole *)

(** X1: a RELEASED node that calls [RequestCriticalSection] enters the
    critical section exactly when the values in the [Release] buffer and
    the inbound releases together are at least as many as the peers whose
    request was answered; failed requests need no release and the senders
    of the releases play no part.  Otherwise it blocks, WANTED, with its
    stamped request. *)
Theorem acquisition_enters_iff (inbound : list ReleaseRequest) (n : Node) :
  state n = RELEASED ->
  let req := mkAccessRequest (ID n) (u64_incr (LamportClock n)) in
  let o := RequestCriticalSection inbound n in
  (In EvEnterCS (trace o) <->
   (answeringPeers n req <= length (Release n) + length inbound)%nat) /\
  (In EvEnterCS (trace o) -> state (final o) = RELEASED) /\
  (~ In EvEnterCS (trace o) ->
   exists n' tr, o = Blocked n' tr /\ state n' = WANTED /\
                 CurrentRequest n' = Some req).
Proof.
  intros Hs req o. subst o.
  rewrite (RequestCriticalSection_released inbound n Hs).
  rewrite stampRequest_run. cbn [final].
  set (n1 := set_ResponseCount 0 _).
  destruct (collectResponses_outcome inbound n1) as [Hdone Hblock].
  change (Release n1) with (Release n) in *.
  change (length (filter _ (map_to_list (Peers n1))))
    with (answeringPeers n req) in *.
  pose proof (preserving_collectResponses inbound n1) as Hk.
  destruct (le_lt_dec (answeringPeers n req) (length (Release n) + length inbound))
    as [Hle|Hlt].
  - destruct (Hdone Hle) as (counts & n3 & Hrun & _).
    rewrite (bind_Done _ _ _ _ _ _ Hrun), trace_prepend, final_prepend.
    assert (In EvEnterCS
              (map (fun p : string * MutexServiceClient =>
                      EvSendRequest p.1 (CurrentRequest n1)) (map_to_list (Peers n1))
               ++ trace (ExecuteCriticalSection n3))) as Hin.
    { apply in_or_app. right. rewrite ExecuteCriticalSection_trace. now left. }
    split; [split; [intros _; exact Hle | intros _; exact Hin]|].
    split; [intros _; apply ExecuteCriticalSection_released|].
    intros Hnot. contradiction.
  - destruct (Hblock Hlt) as (n3 & Hrun).
    rewrite (bind_Blocked _ _ _ _ _ Hrun). cbn [trace final].
    rewrite Hrun in Hk. cbn [final] in Hk.
    pose proof (requests_not_enter (CurrentRequest n1) (map_to_list (Peers n1))) as Hno.
    split; [split; [intros Hin; contradiction | intros Hle; lia]|].
    split; [intros Hin; contradiction|].
    intros _. eexists n3, _. split; [reflexivity|].
    split.
    + rewrite (keeps_state _ _ Hk). apply state_RELEASED in Hs as [Hi Hw].
      unfold state. cbn. now rewrite Hi.
    + destruct Hk as (_ & _ & _ & Hc). rewrite Hc. reflexivity.
Qed.

(** X2: in that call the node sends exactly one request to each of its
    peers, whether it goes on to enter or blocks, and every one of them
    carries the node's identity and the freshly ticked clock. *)
Theorem acquisition_requests_every_peer (inbound : list ReleaseRequest) (n : Node) :
  state n = RELEASED ->
  let req := mkAccessRequest (ID n) (u64_incr (LamportClock n)) in
  let sent := requestsSent (trace (RequestCriticalSection inbound n)) in
  sent = map (fun p : string * MutexServiceClient => (p.1, Some req))
             (map_to_list (Peers n)) /\
  NoDup sent.*1 /\
  (forall peerID, peerID ∈ sent.*1 <-> is_Some (Peers n !! peerID)).
Proof.
  intros Hs req sent.
  assert (sent = map (fun p : string * MutexServiceClient => (p.1, Some req))
                     (map_to_list (Peers n))) as Hsent.
  { subst sent. rewrite (RequestCriticalSection_released inbound n Hs).
    rewrite stampRequest_run. cbn [final].
    set (n1 := set_ResponseCount 0 _).
    destruct (collectResponses_outcome inbound n1) as [Hdone Hblock].
    destruct (le_lt_dec
                (length (filter (fun p : string * MutexServiceClient =>
                                   is_Some (rpcRequestAccess p.2 (wire (CurrentRequest n1))))
                           (map_to_list (Peers n1))))
                (length (Release n1) + length inbound)) as [Hle|Hlt].
    - destruct (Hdone Hle) as (counts & n3 & Hrun & _).
      rewrite (bind_Done _ _ _ _ _ _ Hrun), trace_prepend, requestsSent_app.
      rewrite (requestsSent_silent _ (silent_ExecuteCriticalSection n3)).
      rewrite app_nil_r. apply requestsSent_requests.
    - destruct (Hblock Hlt) as (n3 & Hrun).
      rewrite (bind_Blocked _ _ _ _ _ Hrun). cbn [trace].
      apply requestsSent_requests. }
  split; [exact Hsent|].
  assert (sent.*1 = (map_to_list (Peers n)).*1) as Hfst.
  { rewrite Hsent. clear.
    induction (map_to_list (Peers n)) as [|p l IH]; [reflexivity|].
    cbn. now rewrite <- IH. }
  rewrite Hfst. split.
  - apply NoDup_fst_map_to_list.
  - intros peerID. rewrite list_elem_of_fmap. split.
    + intros ([id c] & -> & Hin). apply elem_of_map_to_list in Hin.
      cbn. eauto.
    + intros [c Hc]. exists (peerID, c). split; [reflexivity|].
      now apply elem_of_map_to_list.
Qed.

Lemma acquisition_enters_iff_witness :
  let inbound := [mkReleaseRequest "node2" 3; mkReleaseRequest "node2" 4] in
  let req := mkAccessRequest (ID node1) (u64_incr (LamportClock node1)) in
  let o := RequestCriticalSection inbound node1 in
  (In EvEnterCS (trace o) <->
   (answeringPeers node1 req <= length (Release node1) + length inbound)%nat) /\
  (In EvEnterCS (trace o) -> state (final o) = RELEASED) /\
  (~ In EvEnterCS (trace o) ->
   exists n' tr, o = Blocked n' tr /\ state n' = WANTED /\
                 CurrentRequest n' = Some req).
Proof.
  apply (acquisition_enters_iff
           [mkReleaseRequest "node2" 3; mkReleaseRequest "node2" 4] node1).
  reflexivity.
Defined.

Lemma acquisition_requests_every_peer_witness :
  let req := mkAccessRequest (ID node1) (u64_incr (LamportClock node1)) in
  let sent := requestsSent (trace (RequestCriticalSection [] node1)) in
  sent = map (fun p : string * MutexServiceClient => (p.1, Some req))
             (map_to_list (Peers node1)) /\
  NoDup sent.*1 /\
  (forall peerID, peerID ∈ sent.*1 <-> is_Some (Peers node1 !! peerID)).
Proof.
  apply (acquisition_requests_every_peer [] node1). reflexivity.
Defined.

(** ** The inbound handlers: timestamps and failures *)

(** X3: short of the largest [uint64], the timestamp of a [RequestAccess]
    response is above the clock before the call and above the request's
    timestamp, and it is the node's clock after the call. *)
Theorem RequestAccess_timestamp_advances
    (req : AccessRequest) (n : Node) (resp : AccessResponse) :
  is_u64 (LamportClock n) -> is_u64 (LamportTimestamp req) ->
  Z.max (LamportClock n) (LamportTimestamp req) < u64_max ->
  returned (RequestAccess req n) = Some resp ->
  LamportClock n < RespTimestamp resp /\
  LamportTimestamp req < RespTimestamp resp /\
  LamportClock (final (RequestAccess req n)) = RespTimestamp resp.
Proof.
  intros [Hc _] [Hm _] Hmax. rewrite RequestAccess_run.
  rewrite (u64_incr_small (Z.max (LamportClock n) (LamportTimestamp req))) by lia.
  destruct (defers n req); cbn.
  - intros [= <-]. cbn. lia.
  - destruct (Peers n !! NodeId req); cbn; [|discriminate].
    intros [= <-]. cbn. lia.
Qed.

Lemma RequestAccess_timestamp_advances_witness :
  LamportClock node1_held < 8 /\ 7 < 8 /\
  LamportClock (final (RequestAccess (mkAccessRequest "node2" 7) node1_held)) = 8.
Proof.
  apply (RequestAccess_timestamp_advances
           (mkAccessRequest "node2" 7) node1_held (mkAccessResponse false 8)).
  - vm_compute. split; [discriminate | reflexivity].
  - vm_compute. split; [discriminate | reflexivity].
  - vm_compute. reflexivity.
  - vm_compute. reflexivity.
Defined.

(** X4: the handler panics exactly when it does not defer and the
    requester has no client in [Peers], and then the clock is merged and
    the deferred list untouched; on the defer path, which makes no
    outbound call, a HELD node answers every request, known requester or
    not.  (On the grant path the handler's return further depends on the
    [ReleaseAccess] call it makes coming back, which this statement does
    not cover.) *)
Theorem RequestAccess_failure (req : AccessRequest) (n : Node) :
  let ts := u64_incr (Z.max (LamportClock n) (LamportTimestamp req)) in
  ((exists n' tr, RequestAccess req n = Panicked n' tr) <->
   (state n <> HELD /\
    ~ (state n = WANTED /\ isHigherPriority (CurrentRequest n) (Some req) = true) /\
    Peers n !! NodeId req = None)) /\
  ((exists n' tr, RequestAccess req n = Panicked n' tr) ->
   RequestAccess req n = Panicked (set_LamportClock ts n) []) /\
  (state n = HELD -> returned (RequestAccess req n) = Some (mkAccessResponse false ts)).
Proof.
  cbv zeta. rewrite RequestAccess_run.
  pose proof (defers_state n req) as Hd.
  destruct (defers n req) eqn:E.
  - assert (state n = HELD \/
            state n = WANTED /\ isHigherPriority (CurrentRequest n) (Some req) = true)
      as Hyes by (apply Hd; reflexivity).
    split; [split|].
    + intros (n' & tr & H). discriminate H.
    + intros (H1 & H2 & _). destruct Hyes; contradiction.
    + split; [intros (n' & tr & H); discriminate H | reflexivity].
  - assert (~ (state n = HELD \/
               state n = WANTED /\ isHigherPriority (CurrentRequest n) (Some req) = true))
      as Hno by (intros H; apply Hd in H; discriminate H).
    destruct (Peers n !! NodeId req) as [c|] eqn:Ec.
    + split; [split|].
      * intros (n' & tr & H). discriminate H.
      * intros (_ & _ & H). discriminate H.
      * split; [intros (n' & tr & H); discriminate H|].
        intros Hheld. exfalso. apply Hno. now left.
    + split; [split|].
      * intros _. split; [tauto|]. split; [tauto | reflexivity].
      * intros _. eexists _, _. reflexivity.
      * split; [reflexivity|].
        intros Hheld. exfalso. apply Hno. now left.
Qed.

(** X5: with nobody receiving from [Release], the first [ReleaseAccess]
    call on an empty buffer is acknowledged with the merged timestamp and
    fills the buffer, and the next call merges its timestamp and then
    blocks on the full buffer. *)
Theorem ReleaseAccess_fills_then_blocks (r1 r2 : ReleaseRequest) (n : Node) :
  Release n = [] ->
  let ts1 := u64_incr (Z.max (LamportClock n) (RelTimestamp r1)) in
  let ts2 := u64_incr (Z.max ts1 (RelTimestamp r2)) in
  let n1 := set_Release [true] (set_LamportClock ts1 n) in
  ReleaseAccess r1 n = Done (mkReleaseResponse true ts1) n1 [] /\
  ReleaseAccess r2 n1 = Blocked (set_LamportClock ts2 n1) [].
Proof.
  intros Hch ts1 ts2 n1. rewrite !ReleaseAccess_run.
  rewrite Hch. split; reflexivity.
Qed.

Lemma ReleaseAccess_fills_then_blocks_witness :
  let n1 := set_Release [true] (set_LamportClock 4 node1) in
  ReleaseAccess (mkReleaseRequest "node2" 3) node1 =
    Done (mkReleaseResponse true 4) n1 [] /\
  ReleaseAccess (mkReleaseRequest "node3" 9) n1 =
    Blocked (set_LamportClock 10 n1) [].
Proof.
  apply (ReleaseAccess_fills_then_blocks
           (mkReleaseRequest "node2" 3) (mkReleaseRequest "node3" 9) node1).
  reflexivity.
Defined.

(** ** The release loop: order and missing peers *)

Lemma leaveCS_unfold (n : Node) :
  let ts := u64_incr (LamportClock n) in
  let n1 := set_LamportClock ts (set_WantCS false (set_InCS false n)) in
  leaveCS n =
  prepend [EvLeaveCS ts] (flushDeferred (length (DeferredResponses n)) ts n1).
Proof.
  intros ts n1. unfold leaveCS. unfold mbind, Op_bind.
  rewrite !bind_modify.
  rewrite (bind_Done _ _ _ _ _ _ (GetLamportClock_run _)), prepend_nil.
  rewrite bind_emit, bind_get. reflexivity.
Qed.


Lemma flushDeferred_missing (ts : Z) (missing : string) (post pre : list string) :
  forall n : Node,
    DeferredResponses n = pre ++ missing :: post ->
    (forall peerID, In peerID pre -> is_Some (Peers n !! peerID)) ->
    Peers n !! missing = None ->
    flushDeferred (length (pre ++ missing :: post)) ts n =
    Panicked (set_DeferredResponses (missing :: post) n)
             (releaseEvents (ID n) ts pre).
Proof.
  induction pre as [|peerID pre IH]; intros n Hl Hpeers Hmiss.
  - cbn [app length flushDeferred] in *. unfold mbind, Op_bind.
    rewrite bind_get, Hl, bind_get, Hmiss.
    rewrite <- Hl, set_DeferredResponses_same. reflexivity.
  - destruct (Hpeers peerID (or_introl eq_refl)) as [c Hc].
    cbn [app length flushDeferred] in *. unfold mbind at 1 2, Op_bind at 1 2.
    rewrite bind_get, Hl, bind_get, Hc.
    unfold mbind at 1, Op_bind at 1.
    rewrite (bind_Done _ _ _ _ _ _ (SendReleaseMSG_run peerID c ts n)).
    unfold mbind at 1, Op_bind at 1. rewrite bind_modify.
    rewrite (IH (set_DeferredResponses (pre ++ missing :: post) n)).
    + reflexivity.
    + reflexivity.
    + intros p Hp. apply (Hpeers p). now right.
    + exact Hmiss.
Qed.

(** X6: when the deferred list reaches an identity that has no client in
    [Peers], the release loop panics on the nil client: the entries before
    it have been sent their release, that identity and the entries after it
    stay in the list and are sent nothing, and the node is RELEASED with
    its clock ticked. *)
Theorem leaveCS_unknown_peer (n : Node) (pre post : list string) (missing : string) :
  DeferredResponses n = pre ++ missing :: post ->
  (forall peerID, In peerID pre -> is_Some (Peers n !! peerID)) ->
  Peers n !! missing = None ->
  let ts := u64_incr (LamportClock n) in
  let o := leaveCS n in
  o = Panicked
        (set_DeferredResponses (missing :: post)
           (set_LamportClock ts (set_WantCS false (set_InCS false n))))
        (EvLeaveCS ts :: releaseEvents (ID n) ts pre) /\
  state (final o) = RELEASED /\
  releasesSent (trace o) =
    map (fun peerID => (peerID, mkReleaseRequest (ID n) ts)) pre.
Proof.
  intros Hl Hpeers Hmiss ts o.
  assert (o = Panicked
                (set_DeferredResponses (missing :: post)
                   (set_LamportClock ts (set_WantCS false (set_InCS false n))))
                (EvLeaveCS ts :: releaseEvents (ID n) ts pre)) as Ho.
  { subst o. rewrite leaveCS_unfold. fold ts.
    set (n1 := set_LamportClock ts _). rewrite Hl.
    rewrite (flushDeferred_missing ts missing post pre n1 Hl Hpeers Hmiss).
    reflexivity. }
  split; [exact Ho|]. rewrite Ho. cbn [final trace].
  split; [reflexivity|].
  change (releasesSent (EvLeaveCS ts :: ?tr)) with (releasesSent tr).
  apply releasesSent_releaseEvents.
Qed.

Lemma leaveCS_unknown_peer_witness :
  let n := handleAll [mkAccessRequest "node2" 7; mkAccessRequest "node9" 8;
                      mkAccessRequest "node3" 9] node1_held in
  let o := leaveCS n in
  o = Panicked
        (set_DeferredResponses ["node9"; "node3"]
           (set_LamportClock 11 (set_WantCS false (set_InCS false n))))
        [EvLeaveCS 11; EvSendRelease "node2" (mkReleaseRequest "node1" 11)] /\
  state (final o) = RELEASED /\
  releasesSent (trace o) = [("node2", mkReleaseRequest "node1" 11)].
Proof.
  apply (leaveCS_unknown_peer
           (handleAll [mkAccessRequest "node2" 7; mkAccessRequest "node9" 8;
                       mkAccessRequest "node3" 9] node1_held)
           ["node2"] ["node3"] "node9").
  - vm_compute. reflexivity.
  - intros peerID [<-|[]]. exists (answeringClient 0). vm_compute. reflexivity.
  - vm_compute. reflexivity.
Defined.




(** ** Two nodes that want the critical section at once *)

(** X9: of two WANTED nodes with different requests, exactly one defers
    the other's request; the node whose own request is ahead appends the
    other's identity and the other leaves its list as it is. *)
Theorem concurrent_requests_one_defers (a b : Node) (ra rb : AccessRequest) :
  state a = WANTED -> state b = WANTED ->
  CurrentRequest a = Some ra -> CurrentRequest b = Some rb ->
  ra <> rb ->
  let la := DeferredResponses (final (RequestAccess rb a)) in
  let lb := DeferredResponses (final (RequestAccess ra b)) in
  (isHigherPriority (Some ra) (Some rb) = true /\
   la = DeferredResponses a ++ [NodeId rb] /\ lb = DeferredResponses b) \/
  (isHigherPriority (Some rb) (Some ra) = true /\
   la = DeferredResponses a /\ lb = DeferredResponses b ++ [NodeId ra]).
Proof.
  intros Ha Hb Hca Hcb Hne la lb. subst la lb.
  rewrite !RequestAccess_deferred_list.
  assert (forall n r r', state n = WANTED -> CurrentRequest n = Some r ->
            defers n r' = isHigherPriority (Some r) (Some r')) as Hdef.
  { intros n r r' Hs Hc. unfold defers, state in *. rewrite Hc.
    destruct (InCS n); [discriminate|]. destruct (WantCS n); [reflexivity|discriminate]. }
  rewrite (Hdef a ra rb Ha Hca), (Hdef b rb ra Hb Hcb).
  destruct (isHigherPriority (Some ra) (Some rb)) eqn:E.
  - left. rewrite (isHigherPriority_asym ra rb E). auto.
  - right. rewrite (isHigherPriority_total ra rb Hne E). auto.
Qed.

Lemma concurrent_requests_one_defers_witness :
  let ra := mkAccessRequest "node1" 5 in
  let rb := mkAccessRequest "node2" 5 in
  let la := DeferredResponses (final (RequestAccess rb node1_wanted)) in
  let lb := DeferredResponses (final (RequestAccess ra node2_wanted)) in
  (isHigherPriority (Some ra) (Some rb) = true /\
   la = DeferredResponses node1_wanted ++ [NodeId rb] /\
   lb = DeferredResponses node2_wanted) \/
  (isHigherPriority (Some rb) (Some ra) = true /\
   la = DeferredResponses node1_wanted /\
   lb = DeferredResponses node2_wanted ++ [NodeId ra]).
Proof.
  apply (concurrent_requests_one_defers node1_wanted node2_wanted
           (mkAccessRequest "node1" 5) (mkAccessRequest "node2" 5));
    try reflexivity.
  discriminate.
Defined.

(** * The draft with a request queue *)

(** ** The order of the queue *)

Lemma Queued_less_spec (a b : Queued.Request) :
  Queued.less a b = true <->
  Queued.Timestamp a < Queued.Timestamp b \/
  (Queued.Timestamp a = Queued.Timestamp b /\
   String.ltb (Queued.NodeID a) (Queued.NodeID b) = true).
Proof.
  unfold Queued.less.
  destruct (Z.eqb_spec (Queued.Timestamp a) (Queued.Timestamp b)) as [E|N].
  - split; [intros H; right; now split | intros [H|[_ H]]; [lia | assumption]].
  - rewrite Z.ltb_lt. split; [now left | intros [H|[H _]]; [assumption | contradiction]].
Qed.

Lemma Queued_less_asym (a b : Queued.Request) :
  Queued.less a b = true -> Queued.less b a = false.
Proof.
  intros H. apply Queued_less_spec in H.
  apply not_true_is_false. intros H'. apply Queued_less_spec in H'.
  destruct H as [H|[E H]], H' as [H'|[E' H']]; try lia.
  apply ltb_asym in H. congruence.
Qed.

Lemma Queued_less_total (a b : Queued.Request) :
  a <> b -> Queued.less a b = false -> Queued.less b a = true.
Proof.
  intros Hne H. apply Queued_less_spec.
  apply not_true_iff_false in H. rewrite Queued_less_spec in H.
  destruct (Z.lt_trichotomy (Queued.Timestamp a) (Queued.Timestamp b))
    as [L|[E|G]]; [tauto | | left; lia].
  right. split; [congruence|].
  apply ltb_total.
  - intros Hid. apply Hne. destruct a, b; cbn in *; congruence.
  - apply not_true_iff_false. tauto.
Qed.

Lemma Queued_less_trans (a b c : Queued.Request) :
  Queued.less a b = true -> Queued.less b c = true -> Queued.less a c = true.
Proof.
  rewrite !Queued_less_spec.
  intros [H12|[E12 S12]] [H23|[E23 S23]]; try (left; lia).
  right. split; [lia|]. eapply ltb_trans; eassumption.
Qed.

#[global] Instance Queued_Request_eq_dec : EqDecision Queued.Request.
Proof. solve_decision. Defined.

#[global] Instance Queued_notAfter_total : Total Queued.notAfter.
Proof.
  intros a b. unfold Queued.notAfter.
  destruct (Queued.less b a) eqn:E; [right; now apply Queued_less_asym | now left].
Qed.

#[global] Instance Queued_notAfter_antisym : AntiSymm (=) Queued.notAfter.
Proof.
  intros a b Hab Hba. unfold Queued.notAfter in *.
  destruct (decide (a = b)) as [E|N]; [exact E|].
  assert (b <> a) as N' by congruence.
  rewrite (Queued_less_total b a N' Hab) in Hba. discriminate.
Qed.

#[global] Instance Queued_notAfter_trans : Transitive Queued.notAfter.
Proof.
  intros a b c Hab Hbc. unfold Queued.notAfter in *.
  apply not_true_is_false. intros Hca.
  destruct (decide (b = a)) as [->|N]; [congruence|].
  pose proof (Queued_less_total b a N Hab) as Hab'.
  rewrite (Queued_less_trans c a b Hca Hab') in Hbc. discriminate.
Qed.

Lemma Queued_isHigherPriority_less (a b : Queued.Request) :
  Queued.isHigherPriority (Some a) (Some b) = Queued.less a b.
Proof. reflexivity. Qed.

(** ** The handlers of the draft in closed form *)

Lemma Queued_UpdateLamportClock_run (m : Z) (n : Queued.Node) :
  Queued.UpdateLamportClock m n =
  (Queued.set_LamportClock (u64_incr (Z.max (Queued.LamportClock n) m)) n,
   u64_incr (Z.max (Queued.LamportClock n) m)).
Proof.
  unfold Queued.UpdateLamportClock.
  destruct (Z.ltb_spec (Queued.LamportClock n) m) as [Hlt|Hge]; cbn.
  - rewrite Z.max_r by lia. reflexivity.
  - rewrite Z.max_l by lia. reflexivity.
Qed.

Lemma Queued_RequestAccess_run (req : AccessRequest) (n : Queued.Node) :
  let ts := u64_incr (Z.max (Queued.LamportClock n) (LamportTimestamp req)) in
  let r := Queued.mkRequest (NodeId req) (LamportTimestamp req) in
  let n2 := Queued.set_RequestQueue (Queued.sortSlice (Queued.RequestQueue n ++ [r]))
              (Queued.set_LamportClock ts n) in
  Queued.RequestAccess req n =
  if Queued.defers n r
  then (Queued.set_DeferredResponses
          (<[NodeId req := true]> (Queued.DeferredResponses n)) n2,
        mkAccessResponse false ts)
  else (n2, mkAccessResponse true ts).
Proof.
  intros ts r n2. unfold Queued.RequestAccess.
  rewrite Queued_UpdateLamportClock_run. reflexivity.
Qed.

Lemma Queued_RequestAccess_queue (req : AccessRequest) (n : Queued.Node) :
  Queued.RequestQueue (Queued.RequestAccess req n).1 =
  Queued.sortSlice
    (Queued.RequestQueue n ++ [Queued.mkRequest (NodeId req) (LamportTimestamp req)]).
Proof.
  rewrite Queued_RequestAccess_run. cbv zeta.
  destruct (Queued.defers n _); reflexivity.
Qed.

(** X10: in the draft with a queue, [RequestAccess] leaves the queue sorted
    by (timestamp, identity) and holding the requests it held plus the new
    one, granted or deferred alike; and the sorted queue is the only
    sorted arrangement of these requests, whatever way [sort.Slice] takes
    to reach it. *)
Theorem Queued_RequestAccess_enqueues
    (req : AccessRequest) (n : Queued.Node) (q : list Queued.Request) :
  let r := Queued.mkRequest (NodeId req) (LamportTimestamp req) in
  let q' := Queued.RequestQueue (Queued.RequestAccess req n).1 in
  Queued.sorted q' /\
  q' ≡ₚ r :: Queued.RequestQueue n /\
  length q' = S (length (Queued.RequestQueue n)) /\
  (Queued.sorted q /\ q ≡ₚ r :: Queued.RequestQueue n -> q = q').
Proof.
  cbv zeta. rewrite Queued_RequestAccess_queue. unfold Queued.sortSlice, Queued.sorted.
  set (r := Queued.mkRequest (NodeId req) (LamportTimestamp req)).
  assert (merge_sort Queued.notAfter (Queued.RequestQueue n ++ [r])
          ≡ₚ r :: Queued.RequestQueue n) as Hperm.
  { rewrite merge_sort_Permutation. symmetry. apply Permutation_cons_append. }
  split; [apply Sorted_merge_sort; apply _|].
  split; [exact Hperm|].
  split; [now rewrite Hperm|].
  intros [Hs Hp]. apply (Sorted_unique Queued.notAfter); [exact Hs | |].
  - apply Sorted_merge_sort; apply _.
  - now rewrite Hp, Hperm.
Qed.

(** ** Removal from the queue *)

Lemma Queued_removeFirst_Forall (P : Queued.Request -> Prop) (id : string)
    (q : list Queued.Request) :
  Forall P q -> Forall P (Queued.removeFirst id q).
Proof.
  induction 1 as [|r q Hr Hq IH]; cbn; [constructor|].
  destruct (String.eqb (Queued.NodeID r) id); [exact Hq | now constructor].
Qed.

Lemma Queued_removeFirst_sorted (id : string) (q : list Queued.Request) :
  Queued.sorted q -> Queued.sorted (Queued.removeFirst id q).
Proof.
  unfold Queued.sorted. intros Hs.
  apply StronglySorted_Sorted. apply Sorted_StronglySorted in Hs; [|apply _].
  induction Hs as [|r q Hq IH Hr]; cbn; [constructor|].
  destruct (String.eqb (Queued.NodeID r) id); [exact Hq|].
  constructor; [exact IH | now apply Queued_removeFirst_Forall].
Qed.

Lemma Queued_removeFirst_others (id : string) (q : list Queued.Request) :
  filter (fun r => Queued.NodeID r <> id) (Queued.removeFirst id q) =
  filter (fun r => Queued.NodeID r <> id) q.
Proof.
  induction q as [|r q IH]; [reflexivity|]. cbn [Queued.removeFirst].
  destruct (String.eqb_spec (Queued.NodeID r) id) as [E|N].
  - rewrite (filter_cons _ r q). rewrite decide_False by tauto. reflexivity.
  - rewrite !filter_cons. rewrite !decide_True by exact N. now rewrite IH.
Qed.

Lemma Queued_removeFirst_own (id : string) (q : list Queued.Request) :
  length (filter (fun r => Queued.NodeID r = id) (Queued.removeFirst id q)) =
  pred (length (filter (fun r => Queued.NodeID r = id) q)).
Proof.
  induction q as [|r q IH]; [reflexivity|]. cbn [Queued.removeFirst].
  destruct (String.eqb_spec (Queued.NodeID r) id) as [E|N].
  - rewrite (filter_cons _ r q). rewrite decide_True by exact E. reflexivity.
  - rewrite !filter_cons. rewrite !decide_False by exact N. exact IH.
Qed.

Lemma Queued_removeFirst_split (id : string) (l1 l2 : list Queued.Request)
    (r : Queued.Request) :
  Forall (fun x => Queued.NodeID x <> id) l1 -> Queued.NodeID r = id ->
  Queued.removeFirst id (l1 ++ r :: l2) = l1 ++ l2.
Proof.
  intros Hl1 Hr. induction Hl1 as [|x l1 Hx _ IH]; cbn.
  - destruct (String.eqb_spec (Queued.NodeID r) id); [reflexivity | contradiction].
  - destruct (String.eqb_spec (Queued.NodeID x) id); [contradiction | now rewrite IH].
Qed.

Lemma Queued_ReleaseAccess_queue (rel : ReleaseRequest) (n : Queued.Node) :
  Queued.RequestQueue (Queued.ReleaseAccess rel n).1.1 =
  Queued.removeFirst (RelNodeId rel) (Queued.RequestQueue n).
Proof.
  unfold Queued.ReleaseAccess. rewrite Queued_UpdateLamportClock_run. reflexivity.
Qed.

(** X11: in the draft with a queue, [ReleaseAccess] drops the first queue
    entry of the releasing node and nothing else: entries before it and
    after it keep their order, a later entry of the same node stays, and a
    queue without an entry of that node is unchanged. *)
Theorem Queued_ReleaseAccess_removes_first
    (rel : ReleaseRequest) (n : Queued.Node)
    (l1 l2 : list Queued.Request) (r : Queued.Request) :
  let id := RelNodeId rel in
  let q' := Queued.RequestQueue (Queued.ReleaseAccess rel n).1.1 in
  filter (fun x => Queued.NodeID x <> id) q' =
    filter (fun x => Queued.NodeID x <> id) (Queued.RequestQueue n) /\
  length (filter (fun x => Queued.NodeID x = id) q') =
    pred (length (filter (fun x => Queued.NodeID x = id) (Queued.RequestQueue n))) /\
  (Forall (fun x => Queued.NodeID x <> id) (Queued.RequestQueue n) ->
   q' = Queued.RequestQueue n) /\
  (Queued.RequestQueue n = l1 ++ r :: l2 /\
   Forall (fun x => Queued.NodeID x <> id) l1 /\ Queued.NodeID r = id ->
   q' = l1 ++ l2).
Proof.
  cbv zeta. rewrite Queued_ReleaseAccess_queue.
  split; [apply Queued_removeFirst_others|].
  split; [apply Queued_removeFirst_own|].
  split.
  - intros Hall. induction Hall as [|x q Hx _ IH]; cbn; [reflexivity|].
    destruct (String.eqb_spec (Queued.NodeID x) (RelNodeId rel));
      [contradiction | now rewrite IH].
  - intros (Hq & Hl1 & Hr). rewrite Hq.
    now apply Queued_removeFirst_split.
Qed.

(** ** The fan-out of the draft *)

Lemma Queued_set_LamportClock_same (n : Queued.Node) :
  Queued.set_LamportClock (Queued.LamportClock n) n = n.
Proof. destruct n; reflexivity. Qed.

Lemma Queued_askPeers (timestamp : Z) (ps : list (string * MutexServiceClient)) :
  forall (n : Queued.Node) (rs : list bool) (tr : list Event),
  exists c,
    foldl (Queued.askPeer timestamp) (n, rs, tr) ps =
    (Queued.set_LamportClock c n,
     rs ++ map (fun p : string * MutexServiceClient =>
                  match rpcRequestAccess p.2 (mkAccessRequest (Queued.ID n) timestamp) with
                  | None => false
                  | Some resp => Granted resp
                  end) ps,
     tr ++ map (fun p : string * MutexServiceClient =>
                  EvSendRequest p.1 (Some (mkAccessRequest (Queued.ID n) timestamp))) ps).
Proof.
  induction ps as [|p ps IH]; intros n rs tr.
  - exists (Queued.LamportClock n). cbn.
    now rewrite Queued_set_LamportClock_same, !app_nil_r.
  - cbn [foldl map]. unfold Queued.askPeer at 2.
    destruct (rpcRequestAccess p.2 (mkAccessRequest (Queued.ID n) timestamp))
      as [resp|] eqn:E.
    + rewrite Queued_UpdateLamportClock_run. cbn [fst].
      destruct (IH (Queued.set_LamportClock
                      (u64_incr (Z.max (Queued.LamportClock n) (RespTimestamp resp))) n)
                   (rs ++ [Granted resp])
                   (tr ++ [EvSendRequest p.1
                             (Some (mkAccessRequest (Queued.ID n) timestamp))]))
        as [c Hc].
      exists c. rewrite Hc. rewrite <- !app_assoc. reflexivity.
    + destruct (IH n (rs ++ [false])
                   (tr ++ [EvSendRequest p.1
                             (Some (mkAccessRequest (Queued.ID n) timestamp))]))
        as [c Hc].
      exists c. rewrite Hc. rewrite <- !app_assoc. reflexivity.
Qed.

Lemma filter_all_length {A} (P : A -> Prop) `{forall x, Decision (P x)} (l : list A) :
  length (filter P l) = length l <-> Forall P l.
Proof.
  induction l as [|x l IH]; [split; [constructor | reflexivity]|].
  rewrite filter_cons. destruct (decide (P x)) as [Hx|Hx]; cbn [length].
  - rewrite Forall_cons. split.
    + intros Hlen. split; [exact Hx | apply IH; lia].
    + intros [_ Hl]. f_equal. now apply IH.
  - pose proof (length_filter P l) as Hle. split.
    + intros Hlen. lia.
    + intros Hall. apply Forall_cons in Hall as [Hx' _]. contradiction.
Qed.

Lemma Queued_granted_all (timestamp : Z) (n : Queued.Node)
    (ps : list (string * MutexServiceClient)) :
  length (filter (fun b => b = true)
            (map (fun p : string * MutexServiceClient =>
                    match rpcRequestAccess p.2 (mkAccessRequest (Queued.ID n) timestamp) with
                    | None => false
                    | Some resp => Granted resp
                    end) ps)) = length ps <->
  Forall (Queued.grants timestamp n) ps.
Proof.
  set (g := fun p : string * MutexServiceClient =>
              match rpcRequestAccess p.2 (mkAccessRequest (Queued.ID n) timestamp) with
              | None => false
              | Some resp => Granted resp
              end).
  replace (length ps) with (length (map g ps)) by apply length_map.
  rewrite filter_all_length, Forall_map. apply Forall_iff. intros p. subst g. cbn beta.
  unfold Queued.grants.
  destruct (rpcRequestAccess p.2 (mkAccessRequest (Queued.ID n) timestamp)) as [resp|].
  - split; [intros H; exists resp; now split | intros (r & [= <-] & Hg); exact Hg].
  - split; [discriminate | intros (r & Hr & _); discriminate Hr].
Qed.

(** ** Entering and leaving in the draft *)

Lemma Queued_ExecuteCriticalSection_fields (n : Queued.Node) :
  let ts := u64_incr (Queued.LamportClock n) in
  let o := Queued.ExecuteCriticalSection n in
  Queued.InCS o.1.1 = false /\ Queued.WantCS o.1.1 = false /\
  Queued.CurrentRequest o.1.1 = None /\
  Queued.RequestQueue o.1.1 = tail (Queued.RequestQueue n) /\
  Queued.DeferredResponses o.1.1 = Queued.DeferredResponses n /\
  Queued.Peers o.1.1 = Queued.Peers n /\
  Queued.ID o.1.1 = Queued.ID n /\
  Queued.LamportClock o.1.1 = ts /\
  o.1.2 = EvEnterCS :: EvLeaveCS ts ::
          map (fun p : string * MutexServiceClient =>
                 EvSendRelease p.1 (mkReleaseRequest (Queued.ID n) ts))
              (map_to_list (Queued.Peers n)) /\
  o.2 = Queued.headPeer (Queued.RequestQueue n) (Queued.Peers n).
Proof.
  cbv zeta. unfold Queued.ExecuteCriticalSection, Queued.GetLamportClock.
  destruct n as [id addr peers clk w i q d k cur].
  cbn -[u64_incr map_to_list].
  destruct q as [|nextReq rest]; cbn -[u64_incr map_to_list];
    repeat split; reflexivity.
Qed.

Lemma Queued_RequestCriticalSection_run (n : Queued.Node) :
  Queued.InCS n = false -> Queued.WantCS n = false ->
  let ts := u64_incr (Queued.LamportClock n) in
  let ps := map_to_list (Queued.Peers n) in
  let tr := map (fun p : string * MutexServiceClient =>
                   EvSendRequest p.1 (Some (mkAccessRequest (Queued.ID n) ts))) ps in
  exists c,
    let n4 := Queued.set_LamportClock c
                (Queued.set_ResponseCount 0
                   (Queued.set_CurrentRequest (Some (Queued.mkRequest (Queued.ID n) ts))
                      (Queued.set_WantCS true n))) in
    (Forall (Queued.grants ts n) ps ->
     Queued.RequestCriticalSection n =
     (let o := Queued.ExecuteCriticalSection (Queued.set_InCS true n4) in
      (o.1.1, tr ++ o.1.2, o.2))) /\
    (~ Forall (Queued.grants ts n) ps ->
     Queued.RequestCriticalSection n = (Queued.set_WantCS false n4, tr, None)).
Proof.
  intros Hi Hw ts ps tr.
  set (n3 := Queued.set_ResponseCount 0
               (Queued.set_CurrentRequest (Some (Queued.mkRequest (Queued.ID n) ts))
                  (Queued.set_LamportClock ts (Queued.set_WantCS true n)))).
  destruct (Queued_askPeers ts ps n3 [] []) as [c Hc].
  exists c. cbv zeta.
  assert (Queued.RequestCriticalSection n =
          let '(n4, rs, tr0) := foldl (Queued.askPeer ts) (n3, [], []) ps in
          if (length (filter (fun b => b = true) rs) =? length ps)%nat
          then let '(n5, tr', started) :=
                 Queued.ExecuteCriticalSection (Queued.set_InCS true n4) in
               (n5, tr0 ++ tr', started)
          else (Queued.set_WantCS false n4, tr0, None)) as E.
  { unfold Queued.RequestCriticalSection. rewrite Hi, Hw. reflexivity. }
  rewrite E, Hc. cbn [app]. change (Queued.ID n3) with (Queued.ID n).
  pose proof (Queued_granted_all ts n ps) as Hall. fold tr.
  destruct (Nat.eqb_spec
              (length (filter (fun b => b = true)
                 (map (fun p : string * MutexServiceClient =>
                         match rpcRequestAccess p.2 (mkAccessRequest (Queued.ID n) ts) with
                         | None => false
                         | Some resp => Granted resp
                         end) ps)))
              (length ps)) as [Heq|Hneq].
  - split; [|intros Hno; exfalso; apply Hno, Hall, Heq].
    intros _. destruct (Queued.ExecuteCriticalSection _) as [[n5 tr'] started].
    reflexivity.
  - split; [intros Hyes; exfalso; apply Hneq, Hall, Hyes|].
    intros _. reflexivity.
Qed.

Lemma releasesSent_requests_nil (cur : option AccessRequest)
    (ps : list (string * MutexServiceClient)) :
  releasesSent (map (fun p : string * MutexServiceClient => EvSendRequest p.1 cur) ps) = [].
Proof. induction ps as [|p ps IH]; [reflexivity | exact IH]. Qed.

Lemma releasesSent_app (tr1 tr2 : list Event) :
  releasesSent (tr1 ++ tr2) = releasesSent tr1 ++ releasesSent tr2.
Proof. unfold releasesSent. apply omap_app. Qed.

Lemma releasesSent_to_all (id : string) (ts : Z) (ps : list (string * MutexServiceClient)) :
  releasesSent (map (fun p : string * MutexServiceClient =>
                       EvSendRelease p.1 (mkReleaseRequest id ts)) ps) =
  map (fun p : string * MutexServiceClient => (p.1, mkReleaseRequest id ts)) ps.
Proof. induction ps as [|p ps IH]; cbn; [reflexivity | now rewrite <- IH]. Qed.

(** X12: in the draft with a queue, a RELEASED node that calls
    [RequestCriticalSection] enters the critical section exactly when every
    peer answers its request with [granted = true].  Having entered, it
    ends RELEASED with [CurrentRequest] cleared and has sent one release,
    stamped with its final clock, to every peer, deferred or not.
    Otherwise (a transport error or a refusal) it gives up: it ends
    RELEASED without having sent any release, and the request it stamped
    stays in [CurrentRequest]. *)
Theorem Queued_acquisition_outcome (n : Queued.Node) :
  Queued.InCS n = false -> Queued.WantCS n = false ->
  let ts := u64_incr (Queued.LamportClock n) in
  let ps := map_to_list (Queued.Peers n) in
  let o := Queued.RequestCriticalSection n in
  let n' := o.1.1 in
  let tr := o.1.2 in
  (In EvEnterCS tr <-> Forall (Queued.grants ts n) ps) /\
  Queued.InCS n' = false /\ Queued.WantCS n' = false /\
  requestsSent tr =
    map (fun p : string * MutexServiceClient =>
           (p.1, Some (mkAccessRequest (Queued.ID n) ts))) ps /\
  (In EvEnterCS tr ->
   Queued.CurrentRequest n' = None /\
   releasesSent tr =
     map (fun p : string * MutexServiceClient =>
            (p.1, mkReleaseRequest (Queued.ID n) (Queued.LamportClock n'))) ps) /\
  (~ In EvEnterCS tr ->
   Queued.CurrentRequest n' = Some (Queued.mkRequest (Queued.ID n) ts) /\
   releasesSent tr = []).
Proof.
  intros Hi Hw ts ps o n' tr.
  destruct (Queued_RequestCriticalSection_run n Hi Hw) as [c [Hyes Hno]].
  fold ts ps in Hyes, Hno.
  set (n4 := Queued.set_LamportClock c _) in *.
  set (reqs := map (fun p : string * MutexServiceClient =>
                      EvSendRequest p.1 (Some (mkAccessRequest (Queued.ID n) ts))) ps) in *.
  assert (Forall (Queued.grants ts n) ps \/ ~ Forall (Queued.grants ts n) ps)
    as [Hall|Hnall].
  { pose proof (Queued_granted_all ts n ps) as Hga.
    destruct (Nat.eq_dec
                (length (filter (fun b => b = true)
                   (map (fun p : string * MutexServiceClient =>
                           match rpcRequestAccess p.2 (mkAccessRequest (Queued.ID n) ts) with
                           | None => false
                           | Some resp => Granted resp
                           end) ps)))
                (length ps)) as [Heq|Hneq].
    - left. apply Hga, Heq.
    - right. intros H. apply Hneq, Hga, H. }
  - specialize (Hyes Hall).
    destruct (Queued_ExecuteCriticalSection_fields (Queued.set_InCS true n4))
      as (Ei & Ew & Ec & _ & _ & _ & _ & Eclk & Etr & _).
    assert (tr = reqs ++ (Queued.ExecuteCriticalSection (Queued.set_InCS true n4)).1.2)
      as Htr by (subst tr o; rewrite Hyes; reflexivity).
    assert (n' = (Queued.ExecuteCriticalSection (Queued.set_InCS true n4)).1.1)
      as Hn' by (subst n' o; rewrite Hyes; reflexivity).
    rewrite Etr in Htr.
    assert (In EvEnterCS tr) as Hin.
    { rewrite Htr. apply in_or_app. right. now left. }
    split; [split; [intros _; exact Hall | intros _; exact Hin]|].
    split; [rewrite Hn'; exact Ei|]. split; [rewrite Hn'; exact Ew|].
    split.
    { rewrite Htr, requestsSent_app. subst reqs. rewrite requestsSent_requests.
      rewrite (requestsSent_silent (EvEnterCS :: _)).
      - apply app_nil_r.
      - constructor; [cbn; tauto|]. constructor; [cbn; tauto|].
        apply Forall_map, Forall_forall. intros p _. cbn. tauto. }
    split; [|intros Hnot; contradiction].
    intros _. split; [rewrite Hn'; exact Ec|].
    rewrite Htr, releasesSent_app. subst reqs. rewrite releasesSent_requests_nil.
    cbn [app]. change (releasesSent (EvEnterCS :: EvLeaveCS ?t :: ?l)) with (releasesSent l).
    rewrite Hn', Eclk. apply releasesSent_to_all.
  - specialize (Hno Hnall).
    assert (tr = reqs) as Htr by (subst tr o; rewrite Hno; reflexivity).
    assert (n' = Queued.set_WantCS false n4) as Hn'
        by (subst n' o; rewrite Hno; reflexivity).
    assert (~ In EvEnterCS tr) as Hnin.
    { rewrite Htr. subst reqs. apply requests_not_enter. }
    split; [split; [intros Hin; contradiction | intros Hall; contradiction]|].
    split; [rewrite Hn'; exact Hi|]. split; [rewrite Hn'; reflexivity|].
    split; [rewrite Htr; subst reqs; apply requestsSent_requests|].
    split; [intros Hin; contradiction|].
    intros _. split; [rewrite Hn'; reflexivity|].
    rewrite Htr. subst reqs. apply releasesSent_requests_nil.
Qed.

Lemma Queued_acquisition_outcome_witness :
  let n := queued_node1 in
  let ts := u64_incr (Queued.LamportClock n) in
  let ps := map_to_list (Queued.Peers n) in
  let o := Queued.RequestCriticalSection n in
  let n' := o.1.1 in
  let tr := o.1.2 in
  (In EvEnterCS tr <-> Forall (Queued.grants ts n) ps) /\
  Queued.InCS n' = false /\ Queued.WantCS n' = false /\
  requestsSent tr =
    map (fun p : string * MutexServiceClient =>
           (p.1, Some (mkAccessRequest (Queued.ID n) ts))) ps /\
  (In EvEnterCS tr ->
   Queued.CurrentRequest n' = None /\
   releasesSent tr =
     map (fun p : string * MutexServiceClient =>
            (p.1, mkReleaseRequest (Queued.ID n) (Queued.LamportClock n'))) ps) /\
  (~ In EvEnterCS tr ->
   Queued.CurrentRequest n' = Some (Queued.mkRequest (Queued.ID n) ts) /\
   releasesSent tr = []).
Proof.
  apply (Queued_acquisition_outcome queued_node1); reflexivity.
Defined.

(** ** What the draft keeps *)

Lemma Queued_RequestCriticalSection_fields (n : Queued.Node) :
  let n' := (Queued.RequestCriticalSection n).1.1 in
  (Queued.RequestQueue n' = Queued.RequestQueue n \/
   Queued.RequestQueue n' = tail (Queued.RequestQueue n)) /\
  Queued.DeferredResponses n' = Queued.DeferredResponses n.
Proof.
  cbv zeta.
  destruct (Queued.InCS n) eqn:Hi; [|destruct (Queued.WantCS n) eqn:Hw].
  - unfold Queued.RequestCriticalSection. rewrite Hi. cbn. auto.
  - unfold Queued.RequestCriticalSection. rewrite Hi, Hw. cbn. auto.
  - destruct (Queued_RequestCriticalSection_run n Hi Hw) as [c [Hyes Hno]].
    set (n4 := Queued.set_LamportClock c _) in *.
    assert (Forall (Queued.grants (u64_incr (Queued.LamportClock n)) n)
                   (map_to_list (Queued.Peers n)) \/
            ~ Forall (Queued.grants (u64_incr (Queued.LamportClock n)) n)
                     (map_to_list (Queued.Peers n))) as [Hall|Hnall].
    { pose proof (Queued_granted_all (u64_incr (Queued.LamportClock n)) n
                    (map_to_list (Queued.Peers n))) as Hga.
      destruct (Nat.eq_dec
                  (length (filter (fun b => b = true)
                     (map (fun p : string * MutexServiceClient =>
                             match rpcRequestAccess p.2
                                     (mkAccessRequest (Queued.ID n)
                                        (u64_incr (Queued.LamportClock n))) with
                             | None => false
                             | Some resp => Granted resp
                             end) (map_to_list (Queued.Peers n)))))
                  (length (map_to_list (Queued.Peers n)))) as [Heq|Hneq].
      - left. apply Hga, Heq.
      - right. intros H. apply Hneq, Hga, H. }
    + rewrite (Hyes Hall). cbn [fst].
      destruct (Queued_ExecuteCriticalSection_fields (Queued.set_InCS true n4))
        as (_ & _ & _ & Eq & Ed & _).
      split; [right; exact Eq | exact Ed].
    + rewrite (Hno Hnall). cbn [fst]. split; [left|]; reflexivity.
Qed.

(** X13: in the draft with a queue, a sorted queue stays sorted under
    every operation, and the request at its head, the one served next, is
    one over which no other queued request has priority. *)
Theorem Queued_queue_stays_sorted
    (n : Queued.Node) (req : AccessRequest) (rel : ReleaseRequest) :
  Queued.sorted (Queued.RequestQueue n) ->
  Queued.sorted (Queued.RequestQueue (Queued.RequestAccess req n).1) /\
  Queued.sorted (Queued.RequestQueue (Queued.ReleaseAccess rel n).1.1) /\
  Queued.sorted (Queued.RequestQueue (Queued.ExecuteCriticalSection n).1.1) /\
  Queued.sorted (Queued.RequestQueue (Queued.RequestCriticalSection n).1.1) /\
  (forall nextReq rest r,
      Queued.RequestQueue n = nextReq :: rest -> In r rest ->
      Queued.isHigherPriority (Some r) (Some nextReq) = false).
Proof.
  intros Hs.
  assert (Queued.sorted (tail (Queued.RequestQueue n))) as Htail.
  { unfold Queued.sorted in *. destruct (Queued.RequestQueue n) as [|x q];
      [constructor | now apply Sorted_inv in Hs]. }
  split.
  { rewrite Queued_RequestAccess_queue. unfold Queued.sortSlice, Queued.sorted.
    apply Sorted_merge_sort; apply _. }
  split.
  { rewrite Queued_ReleaseAccess_queue. now apply Queued_removeFirst_sorted. }
  split.
  { destruct (Queued_ExecuteCriticalSection_fields n) as (_ & _ & _ & Eq & _).
    now rewrite Eq. }
  split.
  { destruct (Queued_RequestCriticalSection_fields n) as [[Eq|Eq] _];
      now rewrite Eq. }
  intros nextReq rest r Hq Hin. rewrite Queued_isHigherPriority_less.
  unfold Queued.sorted in Hs. rewrite Hq in Hs.
  apply Sorted_StronglySorted in Hs; [|apply _].
  apply StronglySorted_inv in Hs as [_ Hall].
  rewrite Forall_forall in Hall. apply (Hall r). now apply list_elem_of_In.
Qed.

Lemma Queued_queue_stays_sorted_witness :
  let n := queued_node1 in
  let req := mkAccessRequest "node2" 1 in
  let rel := mkReleaseRequest "node2" 5 in
  Queued.sorted (Queued.RequestQueue (Queued.RequestAccess req n).1) /\
  Queued.sorted (Queued.RequestQueue (Queued.ReleaseAccess rel n).1.1) /\
  Queued.sorted (Queued.RequestQueue (Queued.ExecuteCriticalSection n).1.1) /\
  Queued.sorted (Queued.RequestQueue (Queued.RequestCriticalSection n).1.1) /\
  (forall nextReq rest r,
      Queued.RequestQueue n = nextReq :: rest -> In r rest ->
      Queued.isHigherPriority (Some r) (Some nextReq) = false).
Proof.
  apply (Queued_queue_stays_sorted queued_node1
           (mkAccessRequest "node2" 1) (mkReleaseRequest "node2" 5)).
  repeat constructor.
Defined.

(** X14: in the draft with a queue, the response carries [granted = true]
    exactly when the request is not deferred; a deferred requester is
    marked in the [DeferredResponses] map, marking it again changes
    nothing, and no operation ever removes a mark: [ReleaseAccess],
    [ExecuteCriticalSection] and [RequestCriticalSection] leave the map as
    it is. *)
Theorem Queued_deferred_marks
    (req req2 : AccessRequest) (rel : ReleaseRequest) (n : Queued.Node) :
  let r := Queued.mkRequest (NodeId req) (LamportTimestamp req) in
  let o := Queued.RequestAccess req n in
  Granted o.2 = negb (Queued.defers n r) /\
  Queued.DeferredResponses o.1 =
    (if Queued.defers n r
     then <[NodeId req := true]> (Queued.DeferredResponses n)
     else Queued.DeferredResponses n) /\
  (Queued.defers n r = true /\ NodeId req2 = NodeId req ->
   Queued.DeferredResponses (Queued.RequestAccess req2 o.1).1 =
   Queued.DeferredResponses o.1) /\
  Queued.DeferredResponses (Queued.ReleaseAccess rel n).1.1 = Queued.DeferredResponses n /\
  Queued.DeferredResponses (Queued.ExecuteCriticalSection n).1.1 =
    Queued.DeferredResponses n /\
  Queued.DeferredResponses (Queued.RequestCriticalSection n).1.1 =
    Queued.DeferredResponses n.
Proof.
  cbv zeta.
  assert (forall rq m,
            Queued.DeferredResponses (Queued.RequestAccess rq m).1 =
            if Queued.defers m (Queued.mkRequest (NodeId rq) (LamportTimestamp rq))
            then <[NodeId rq := true]> (Queued.DeferredResponses m)
            else Queued.DeferredResponses m) as Hd.
  { intros rq m. rewrite Queued_RequestAccess_run. cbv zeta.
    destruct (Queued.defers m _); reflexivity. }
  split.
  { rewrite Queued_RequestAccess_run. cbv zeta.
    destruct (Queued.defers n _); reflexivity. }
  split; [apply Hd|].
  split.
  { intros [Hdef Hid]. rewrite (Hd req2), (Hd req), Hdef, Hid.
    destruct (Queued.defers (Queued.RequestAccess req n).1 _); [|reflexivity].
    apply insert_insert_eq. }
  split.
  { unfold Queued.ReleaseAccess. rewrite Queued_UpdateLamportClock_run. reflexivity. }
  split.
  { apply Queued_ExecuteCriticalSection_fields. }
  apply Queued_RequestCriticalSection_fields.
Qed.

(** * The draft with wall-clock timestamps *)

Lemma Locked_askPeer_refused (n : Locked.Node) (tr : list Locked.Event)
    (p : string * Locked.Client) :
  Locked.rpcRequestAccess p.2 (Locked.ID n) (Locked.RequestTimestamp n) <> Some true ->
  Locked.askPeer (Locked.Returned tt n tr) p =
  Locked.Returned tt n
    (tr ++ [Locked.EvSendRequest p.1 (Locked.ID n) (Locked.RequestTimestamp n)]).
Proof.
  intros Hr. unfold Locked.askPeer.
  destruct (Locked.rpcRequestAccess p.2 (Locked.ID n) (Locked.RequestTimestamp n))
    as [[|]|]; [contradiction | reflexivity | reflexivity].
Qed.

Lemma Locked_askPeer_counted (n : Locked.Node) (tr : list Locked.Event)
    (p : string * Locked.Client) :
  Locked.rpcRequestAccess p.2 (Locked.ID n) (Locked.RequestTimestamp n) = Some true ->
  Locked.mu n = false ->
  Locked.ResponseCount n + 1 <> Z.of_nat (size (Locked.Peers n)) ->
  Locked.askPeer (Locked.Returned tt n tr) p =
  Locked.Returned tt
    (Locked.set_mu false
       (Locked.set_ResponseCount (Locked.ResponseCount n + 1) (Locked.set_mu true n)))
    (tr ++ [Locked.EvSendRequest p.1 (Locked.ID n) (Locked.RequestTimestamp n)]).
Proof.
  intros Hr Hmu Hneq. unfold Locked.askPeer. rewrite Hr, Hmu.
  cbn [Locked.ResponseCount Locked.set_ResponseCount Locked.Peers Locked.set_mu].
  apply Z.eqb_neq in Hneq. rewrite Hneq. reflexivity.
Qed.

Lemma Locked_askPeer_last (n : Locked.Node) (tr : list Locked.Event)
    (p : string * Locked.Client) :
  Locked.rpcRequestAccess p.2 (Locked.ID n) (Locked.RequestTimestamp n) = Some true ->
  Locked.mu n = false ->
  Locked.ResponseCount n + 1 = Z.of_nat (size (Locked.Peers n)) ->
  Locked.askPeer (Locked.Returned tt n tr) p =
  Locked.Stuck
    (Locked.set_InCS true
       (Locked.set_ResponseCount (Locked.ResponseCount n + 1) (Locked.set_mu true n)))
    ((tr ++ [Locked.EvSendRequest p.1 (Locked.ID n) (Locked.RequestTimestamp n)])
     ++ [Locked.EvEnterCS; Locked.EvLeaveCS]).
Proof.
  intros Hr Hmu Heq. unfold Locked.askPeer. rewrite Hr, Hmu.
  cbn [Locked.ResponseCount Locked.set_ResponseCount Locked.Peers Locked.set_mu].
  apply Z.eqb_eq in Heq. rewrite Heq. reflexivity.
Qed.

Lemma Locked_askPeers (rest : list (string * Locked.Client)) :
  forall (n : Locked.Node) (tr : list Locked.Event) (k : nat),
    Locked.mu n = false ->
    Locked.ResponseCount n = Z.of_nat k ->
    (k + length rest <= size (Locked.Peers n))%nat ->
    ~ In Locked.EvEnterCS tr ->
    Forall (fun e => ~ Locked.isRelease e) tr ->
    let r := foldl Locked.askPeer (Locked.Returned tt n tr) rest in
    let all := (k + length rest = size (Locked.Peers n))%nat /\ rest <> [] /\
               Locked.allGrant (Locked.ID n) (Locked.RequestTimestamp n) rest in
    (all -> exists n' tr', r = Locked.Stuck n' tr' /\
                           Locked.mu n' = true /\ Locked.InCS n' = true /\
                           Locked.WantCS n' = Locked.WantCS n /\
                           Locked.DeferredResponses n' = Locked.DeferredResponses n /\
                           In Locked.EvEnterCS tr' /\
                           Forall (fun e => ~ Locked.isRelease e) tr') /\
    (~ all -> exists n' tr', r = Locked.Returned tt n' tr' /\
                             Locked.mu n' = false /\ Locked.InCS n' = Locked.InCS n /\
                             Locked.WantCS n' = Locked.WantCS n /\
                             Locked.DeferredResponses n' = Locked.DeferredResponses n /\
                             ~ In Locked.EvEnterCS tr').
Proof.
  induction rest as [|p rest IH]; intros n tr k Hmu Hcount Hle Hno Hrel.
  - cbn. split.
    + intros (_ & Hne & _). contradiction.
    + intros _. exists n, tr. repeat split; try reflexivity; assumption.
  - cbv zeta. cbn [foldl length].
    set (tr1 := tr ++ [Locked.EvSendRequest p.1 (Locked.ID n) (Locked.RequestTimestamp n)]).
    assert (~ In Locked.EvEnterCS tr1) as Hno1.
    { subst tr1. intros Hin. apply in_app_or in Hin as [Hin|[Hin|[]]];
        [contradiction | discriminate]. }
    assert (Forall (fun e => ~ Locked.isRelease e) tr1) as Hrel1.
    { subst tr1. apply Forall_app. split; [exact Hrel|].
      constructor; [cbn; tauto | constructor]. }
    destruct (decide (Locked.rpcRequestAccess p.2 (Locked.ID n)
                        (Locked.RequestTimestamp n) = Some true)) as [Hrpc|Hrpc].
    + destruct (decide (Locked.ResponseCount n + 1 = Z.of_nat (size (Locked.Peers n))))
        as [Heq|Hneq].
      * rewrite (Locked_askPeer_last n tr p Hrpc Hmu Heq). fold tr1.
        assert (rest = []) as -> by (destruct rest; [reflexivity | cbn in Hle; lia]).
        cbn [foldl length]. split.
        -- intros _. eexists _, _. split; [reflexivity|].
           cbn. repeat split.
           ++ apply in_or_app. right. now left.
           ++ apply Forall_app. split; [exact Hrel1|].
              repeat constructor; cbn; tauto.
        -- intros Hnot. exfalso. apply Hnot. split; [lia|].
           split; [discriminate|]. constructor; [exact Hrpc | constructor].
      * rewrite (Locked_askPeer_counted n tr p Hrpc Hmu Hneq). fold tr1.
        set (n1 := Locked.set_mu false _).
        destruct (IH n1 tr1 (S k)) as [Hyes Hnot]; try assumption; try reflexivity.
        { subst n1. cbn. lia. }
        { subst n1. cbn. cbn in Hle. lia. }
        cbv zeta in Hyes, Hnot.
        change (Locked.ID n1) with (Locked.ID n) in *.
        change (Locked.RequestTimestamp n1) with (Locked.RequestTimestamp n) in *.
        change (Locked.Peers n1) with (Locked.Peers n) in *.
        change (Locked.InCS n1) with (Locked.InCS n) in *.
        change (Locked.WantCS n1) with (Locked.WantCS n) in *.
        change (Locked.DeferredResponses n1) with (Locked.DeferredResponses n) in *.
        split.
        -- intros (Hsum & _ & Hall). apply Hyes.
           apply Forall_cons in Hall as [_ Hall].
           split; [cbn in Hsum; lia|]. split; [|exact Hall].
           intros ->. cbn in Hsum. lia.
        -- intros Hnall. apply Hnot. intros (Hsum & Hne & Hall).
           apply Hnall. split; [cbn; lia|]. split; [discriminate|].
           constructor; assumption.
    + rewrite (Locked_askPeer_refused n tr p Hrpc). fold tr1.
      destruct (IH n tr1 k) as [_ Hnot]; try assumption.
      { cbn in Hle. lia. }
      cbv zeta in Hnot. split.
      * intros (_ & _ & Hall). exfalso.
        apply Forall_cons in Hall as [Hp _]. contradiction.
      * intros _. apply Hnot. intros (Hsum & _). cbn in Hle. lia.
Qed.

(** X15: in the draft with wall-clock timestamps, when the node has at
    least one peer and every peer grants, the goroutine that counts the
    last grant calls [ExecuteCriticalSection] while it holds [mu] and
    blocks for ever on [mu.Lock()]: the node stays HELD with [mu] held, no
    release is ever sent, and every later [RequestAccess] and
    [ReleaseAccess] call blocks too.  In every other case the call returns
    with the node WANTED and the critical section not entered. *)
Theorem Locked_acquisition_stuck (now : Z) (n : Locked.Node) :
  Locked.mu n = false ->
  let ps := map_to_list (Locked.Peers n) in
  let r := Locked.RequestCriticalSection now n in
  let all := ps <> [] /\ Locked.allGrant (Locked.ID n) now ps in
  (all -> exists n' tr,
      r = Locked.Stuck n' tr /\
      Locked.mu n' = true /\ Locked.InCS n' = true /\ Locked.WantCS n' = true /\
      In Locked.EvEnterCS tr /\
      Forall (fun e => ~ Locked.isRelease e) tr /\
      (forall id ts, Locked.RequestAccess id ts n' = Locked.Stuck n' []) /\
      (forall id, Locked.ReleaseAccess id n' = Locked.Stuck n' [])) /\
  (~ all -> exists n' tr,
      r = Locked.Returned tt n' tr /\
      Locked.mu n' = false /\ Locked.InCS n' = Locked.InCS n /\
      Locked.WantCS n' = true /\
      ~ In Locked.EvEnterCS tr).
Proof.
  intros Hmu ps r all. subst r. unfold Locked.RequestCriticalSection. rewrite Hmu.
  set (n1 := Locked.set_ResponseCount 0 _).
  change (Locked.Peers n1) with (Locked.Peers n). fold ps.
  destruct (Locked_askPeers ps n1 [] 0) as [Hyes Hnot];
    try reflexivity; try assumption.
  { subst ps. cbn. rewrite length_map_to_list. reflexivity. }
  { intros []. }
  { constructor. }
  cbv zeta in Hyes, Hnot.
  change (Locked.ID n1) with (Locked.ID n) in *.
  change (Locked.RequestTimestamp n1) with now in *.
  change (Locked.Peers n1) with (Locked.Peers n) in *.
  change (Locked.WantCS n1) with true in *.
  change (Locked.InCS n1) with (Locked.InCS n) in *.
  assert ((0 + length ps)%nat = size (Locked.Peers n)) as Hlen
      by (subst ps; cbn; now rewrite length_map_to_list).
  split.
  - intros [Hne Hall].
    destruct Hyes as (n' & tr & Hr & Hm & Hi & Hw & _ & Hin & Hrel);
      [split; [exact Hlen | split; [exact Hne | exact Hall]]|].
    exists n', tr. split; [exact Hr|].
    split; [exact Hm|]. split; [exact Hi|]. split; [exact Hw|].
    split; [exact Hin|]. split; [exact Hrel|].
    split.
    + intros id ts. unfold Locked.RequestAccess. now rewrite Hm.
    + intros id. unfold Locked.ReleaseAccess. now rewrite Hm.
  - intros Hnall.
    destruct Hnot as (n' & tr & Hr & Hm & Hi & Hw & _ & Hin);
      [intros (_ & H1 & H2); apply Hnall; split; assumption|].
    exists n', tr. repeat split; assumption.
Qed.

Lemma Locked_acquisition_stuck_witness :
  let n := locked_node1 in
  let ps := map_to_list (Locked.Peers n) in
  let r := Locked.RequestCriticalSection 1700000000000000000 n in
  let all := ps <> [] /\ Locked.allGrant (Locked.ID n) 1700000000000000000 ps in
  (all -> exists n' tr,
      r = Locked.Stuck n' tr /\
      Locked.mu n' = true /\ Locked.InCS n' = true /\ Locked.WantCS n' = true /\
      In Locked.EvEnterCS tr /\
      Forall (fun e => ~ Locked.isRelease e) tr /\
      (forall id ts, Locked.RequestAccess id ts n' = Locked.Stuck n' []) /\
      (forall id, Locked.ReleaseAccess id n' = Locked.Stuck n' [])) /\
  (~ all -> exists n' tr,
      r = Locked.Returned tt n' tr /\
      Locked.mu n' = false /\ Locked.InCS n' = Locked.InCS n /\
      Locked.WantCS n' = true /\
      ~ In Locked.EvEnterCS tr).
Proof.
  apply (Locked_acquisition_stuck 1700000000000000000 locked_node1). reflexivity.
Defined.

(** X16: in the draft with wall-clock timestamps, of two WANTED nodes the
    one with the strictly smaller timestamp defers the other and is
    granted by it; with equal timestamps neither defers, so each grants
    the other's request, whatever their identities. *)
Theorem Locked_no_tie_break (a b : Locked.Node) :
  Locked.mu a = false -> Locked.mu b = false ->
  Locked.InCS a = false -> Locked.InCS b = false ->
  Locked.WantCS a = true -> Locked.WantCS b = true ->
  let ra := Locked.RequestAccess (Locked.ID b) (Locked.RequestTimestamp b) a in
  let rb := Locked.RequestAccess (Locked.ID a) (Locked.RequestTimestamp a) b in
  (Locked.RequestTimestamp a < Locked.RequestTimestamp b ->
   ra = Locked.Returned false
          (Locked.set_DeferredResponses (Locked.DeferredResponses a ++ [Locked.ID b]) a) [] /\
   rb = Locked.Returned true b []) /\
  (Locked.RequestTimestamp a = Locked.RequestTimestamp b ->
   ra = Locked.Returned true a [] /\ rb = Locked.Returned true b []).
Proof.
  intros Hma Hmb Hia Hib Hwa Hwb ra rb. subst ra rb.
  unfold Locked.RequestAccess. rewrite Hma, Hmb, Hia, Hib, Hwa, Hwb. cbn [orb andb].
  split.
  - intros Hlt.
    rewrite (proj2 (Z.ltb_lt _ _) Hlt).
    rewrite (proj2 (Z.ltb_ge _ _)) by lia. split; reflexivity.
  - intros Heq. rewrite Heq, Z.ltb_irrefl. split; reflexivity.
Qed.

Lemma Locked_no_tie_break_witness :
  let a := locked_wanted "node1" 1700000000000000000 in
  let b := locked_wanted "node2" 1700000000000000000 in
  let ra := Locked.RequestAccess (Locked.ID b) (Locked.RequestTimestamp b) a in
  let rb := Locked.RequestAccess (Locked.ID a) (Locked.RequestTimestamp a) b in
  (Locked.RequestTimestamp a < Locked.RequestTimestamp b ->
   ra = Locked.Returned false
          (Locked.set_DeferredResponses (Locked.DeferredResponses a ++ [Locked.ID b]) a) [] /\
   rb = Locked.Returned true b []) /\
  (Locked.RequestTimestamp a = Locked.RequestTimestamp b ->
   ra = Locked.Returned true a [] /\ rb = Locked.Returned true b []).
Proof.
  apply (Locked_no_tie_break (locked_wanted "node1" 1700000000000000000)
           (locked_wanted "node2" 1700000000000000000)); reflexivity.
Defined.

(** * Start-up: the peers flag *)

Ltac string_app :=
  repeat first
    [ progress change (String ?x ?a ++ ?b)%string with (String x (a ++ b)%string)
    | progress change (EmptyString ++ ?b)%string with b ].

Lemma Main_occurs_app (c : ascii) (a b : string) :
  Main.occurs c (a ++ b)%string = Main.occurs c a || Main.occurs c b.
Proof.
  induction a as [|x a IH]; string_app; cbn [Main.occurs orb]; [reflexivity|].
  now rewrite IH, orb_assoc.
Qed.

Lemma Main_splitOn_plain (sep : ascii) (w : string) :
  Main.occurs sep w = false -> Main.splitOn sep w = [w].
Proof.
  induction w as [|x w IH]; cbn; [reflexivity|].
  intros H. apply orb_false_iff in H as [Hx Hw].
  rewrite Hx, (IH Hw). reflexivity.
Qed.

Lemma Main_splitOn_app (sep : ascii) (w rest : string) :
  Main.occurs sep w = false ->
  Main.splitOn sep (w ++ String sep rest)%string = w :: Main.splitOn sep rest.
Proof.
  induction w as [|x w IH]; string_app; cbn [Main.occurs Main.splitOn].
  - intros _. now rewrite Ascii.eqb_refl.
  - intros H. apply orb_false_iff in H as [Hx Hw].
    rewrite Hx, (IH Hw). reflexivity.
Qed.

Lemma Main_splitOn_cons (sep : ascii) (s : string) :
  exists w ws, Main.splitOn sep s = w :: ws.
Proof.
  destruct s as [|c s]; cbn; [eauto|].
  destruct (Ascii.eqb c sep); [eauto|].
  destruct (Main.splitOn sep s); eauto.
Qed.

Lemma Main_splitOn_join (sep : ascii) (s : string) :
  Main.joinWith sep (Main.splitOn sep s) = s /\
  Forall (fun w => Main.occurs sep w = false) (Main.splitOn sep s).
Proof.
  induction s as [|c s [IHj IHf]]; cbn.
  - split; [reflexivity | repeat constructor].
  - destruct (Main_splitOn_cons sep s) as (w & ws & Hs).
    rewrite Hs in *. destruct (Ascii.eqb_spec c sep) as [->|Hne].
    + split; [|constructor; [reflexivity | exact IHf]].
      change (Main.joinWith sep (EmptyString :: w :: ws))
        with (EmptyString ++ String sep (Main.joinWith sep (w :: ws)))%string.
      now rewrite IHj.
    + apply Forall_cons in IHf as [Hw Hws]. split.
      * destruct ws as [|w' ws].
        -- cbn in *. now rewrite IHj.
        -- change (Main.joinWith sep (String c w :: w' :: ws))
             with (String c w ++ String sep (Main.joinWith sep (w' :: ws)))%string.
           change (Main.joinWith sep (w :: w' :: ws))
             with (w ++ String sep (Main.joinWith sep (w' :: ws)))%string in IHj.
           string_app. now rewrite IHj.
      * constructor; [|exact Hws]. cbn. rewrite Hw.
        apply Ascii.eqb_neq in Hne. now rewrite Hne.
Qed.

Lemma Main_splitOn_joined (sep : ascii) (ws : list string) :
  ws <> [] -> Forall (fun w => Main.occurs sep w = false) ws ->
  Main.splitOn sep (Main.joinWith sep ws) = ws.
Proof.
  intros Hne Hall. induction Hall as [|w ws Hw Hws IH]; [contradiction|].
  destruct ws as [|w' ws].
  - cbn. now apply Main_splitOn_plain.
  - change (Main.joinWith sep (w :: w' :: ws))
      with (w ++ String sep (Main.joinWith sep (w' :: ws)))%string.
    rewrite (Main_splitOn_app sep w _ Hw).
    now rewrite IH.
Qed.

(** X17: [main] accepts an entry of the peers flag exactly when it has one
    [@]: the entry [id@addr] with no [@] in [id] or [addr] yields the
    identity [id] and the address [addr], and every other entry (no [@],
    or more than one) stops the process. *)
Theorem Main_parsePeer_spec (peer peerID peerAddr : string) :
  Main.parsePeer peer = Some (peerID, peerAddr) <->
  peer = (peerID ++ String "@" peerAddr)%string /\
  Main.occurs "@" peerID = false /\ Main.occurs "@" peerAddr = false.
Proof.
  unfold Main.parsePeer. split.
  - intros H. destruct (Main_splitOn_join "@" peer) as [Hj Hf].
    destruct (Main.splitOn "@" peer) as [|a [|b [|c l]]]; try discriminate.
    injection H as -> ->. cbn [Main.joinWith] in Hj.
    apply Forall_cons in Hf as [Ha Hf]. apply Forall_cons in Hf as [Hb _].
    split; [now symmetry | now split].
  - intros (-> & Hid & Haddr).
    rewrite (Main_splitOn_app "@" peerID peerAddr Hid).
    now rewrite (Main_splitOn_plain "@" peerAddr Haddr).
Qed.

Lemma Main_parsePeer_entry (p : string * string) :
  Main.plain p -> Main.parsePeer (Main.entry p) = Some p.
Proof.
  intros (H1 & H2 & _). destruct p as [id addr].
  apply Main_parsePeer_spec. now split.
Qed.

Lemma Main_entry_no_comma (p : string * string) :
  Main.plain p -> Main.occurs "," (Main.entry p) = false.
Proof.
  intros (_ & _ & H3 & H4). unfold Main.entry.
  rewrite Main_occurs_app, H3. cbn [Main.occurs orb]. exact H4.
Qed.

Lemma Main_connectPeers_entries (dial : string -> option MutexServiceClient)
    (ps : list (string * string)) :
  Forall Main.plain ps ->
  forall n, Main.connectPeers dial (map Main.entry ps) n =
            Some (Main.connectAll dial ps n).
Proof.
  induction 1 as [|p ps Hp _ IH]; intros n; [reflexivity|].
  cbn [map Main.connectPeers]. rewrite (Main_parsePeer_entry p Hp).
  destruct p as [id addr]. cbn [fst snd]. rewrite IH. reflexivity.
Qed.

Lemma Main_joined_not_empty (ps : list (string * string)) :
  ps <> [] -> String.eqb (Main.joinWith "," (map Main.entry ps)) "" = false.
Proof.
  destruct ps as [|[id addr] ps]; [contradiction|]. intros _.
  apply String.eqb_neq. cbn [map].
  destruct ps as [|p ps].
  - cbn [map Main.joinWith]. unfold Main.entry. cbn [fst snd].
    destruct id; string_app; discriminate.
  - cbn [map].
    change (Main.joinWith "," (Main.entry (id, addr) :: Main.entry p :: map Main.entry ps))
      with (Main.entry (id, addr) ++
            String "," (Main.joinWith "," (Main.entry p :: map Main.entry ps)))%string.
    unfold Main.entry at 1. cbn [fst snd].
    destruct id; string_app; discriminate.
Qed.

(** X18: a peers flag written as the entries [id@addr] of a non-empty list
    of pairs, joined by commas, with no [@] and no comma inside an identity
    or an address, makes [main] connect exactly these pairs in their
    order, skipping those whose address cannot be dialled; and a list of
    entries one of which does not parse stops the process whatever the
    others are. *)
Theorem Main_connectFlag_round_trip
    (dial : string -> option MutexServiceClient)
    (ps : list (string * string)) (entries : list string) (n : Node) :
  ps <> [] -> Forall Main.plain ps ->
  Main.connectFlag dial (Main.joinWith "," (map Main.entry ps)) n =
    Some (Main.connectAll dial ps n) /\
  (Exists (fun e => Main.parsePeer e = None) entries ->
   Main.connectPeers dial entries n = None).
Proof.
  intros Hne Hall. split.
  - unfold Main.connectFlag. rewrite (Main_joined_not_empty ps Hne).
    rewrite Main_splitOn_joined.
    + now apply Main_connectPeers_entries.
    + destruct ps; [contradiction | discriminate].
    + apply Forall_map. eapply Forall_impl; [exact Hall|].
      intros p Hp. now apply Main_entry_no_comma.
  - clear. intros Hex. revert n.
    induction Hex as [e es He|e es _ IH]; intros n; cbn [Main.connectPeers].
    + now rewrite He.
    + destruct (Main.parsePeer e) as [[id addr]|]; [apply IH | reflexivity].
Qed.

Lemma Main_connectFlag_round_trip_witness :
  let dial := fun addr : string =>
                if String.eqb addr "localhost:5002"
                then Some (answeringClient 0) else None in
  let n := NewNode "node1" "localhost:5001" in
  Main.connectFlag dial "node2@localhost:5002,node3@localhost:5003" n =
    Some (ConnectToPeer "node2" (answeringClient 0) n) /\
  (Exists (fun e => Main.parsePeer e = None) ["node2@localhost:5002"; "node3"] ->
   Main.connectPeers dial ["node2@localhost:5002"; "node3"] n = None).
Proof.
  apply (Main_connectFlag_round_trip
           (fun addr : string =>
              if String.eqb addr "localhost:5002"
              then Some (answeringClient 0) else None)
           [("node2", "localhost:5002"); ("node3", "localhost:5003")]
           ["node2@localhost:5002"; "node3"]
           (NewNode "node1" "localhost:5001")).
  - discriminate.
  - repeat constructor.
Defined.
